(** * ConferenceInstanceRepository: relational model and verified contract

    A shallow embedding of
    [frontend_developing/repositories/conference_instance_repository.py].

    The repository class wraps a SQLAlchemy session. Tables are lists of rows
    (the list order is the engine's scan order), every query of the source is
    written as the relational expression it renders to, and the methods run
    in a state-and-exception monad over the session. *)

From Stdlib Require Import ZArith Sorted Permutation.
From stdpp Require Import base tactics option list gmap strings.

Open Scope Z_scope.

(** ** Values and mapped classes *)

(** A Python scalar handed to a column: [None], an [int] or a [str]. *)
Inductive value :=
  | VNone
  | VInt (z : Z)
  | VStr (s : string).

#[global] Instance value_eq_dec : EqDecision value.
Proof. solve_decision. Defined.

(** Modelled from the spec: the mapped classes of [models.py], which is not
    part of the sources. Section 3 of the specification gives their columns:
    a Conference has the identity [conference_id] and a [name]. *)
Module Conference.
Record t := mk { conference_id : string; name : string }.
#[global] Instance eq_dec : EqDecision t.
Proof. solve_decision. Defined.
End Conference.

(** Modelled from the spec: a ConferenceInstance has the identity
    [instance_id], the foreign key [conference_id], the denormalised
    [conference_name], an integer [year], and [attrs], the additional
    attributes supplied at upsert time. [conference_name] holds a [value]
    because [setattr] may store any Python scalar in it. *)
Module ConferenceInstance.
Record t := mk {
  instance_id : Z;
  conference_id : string;
  conference_name : value;
  year : Z;
  attrs : gmap string value
}.
#[global] Instance eq_dec : EqDecision t.
Proof. solve_decision. Defined.
End ConferenceInstance.

(** Modelled from the spec: a Paper belongs to an instance via
    [instance_id]; [paper_id] is the column the source counts. *)
Module Paper.
Record t := mk { paper_id : Z; instance_id : Z }.
#[global] Instance eq_dec : EqDecision t.
Proof. solve_decision. Defined.
End Paper.

(** Modelled from the spec: a Session belongs to an instance via
    [instance_id] and carries its speaker relation [speaker_to_session]. *)
Module Session.
Record t := mk {
  session_id : Z;
  instance_id : Z;
  speaker_to_session : list Z
}.
#[global] Instance eq_dec : EqDecision t.
Proof. solve_decision. Defined.
End Session.

(** The four tables the repository touches. *)
Record database := mk_database {
  conferences : list Conference.t;
  instances : list ConferenceInstance.t;
  papers : list Paper.t;
  sessions : list Session.t
}.

(** ** Exceptions *)

(** The subclasses of [Exception] that occur: the two Python raises of
    [upsert] and whatever the engine raises while it executes a statement. *)
Inductive exn :=
  | ValueError (msg : string)
  | TypeError (msg : string)
  | SQLAlchemyError (msg : string).

(** [str(e)] *)
Definition str (e : exn) : string :=
  match e with
  | ValueError msg | TypeError msg | SQLAlchemyError msg => msg
  end.

(** ** The session *)

(** [self.session]: the rows as committed, the number of commits issued, the
    engine's answers to the statements still to come ([Some e]: the next
    execution raises [e]; [None] or an exhausted list: it succeeds), and the
    lines printed so far. *)
Record session := mk_session {
  store : database;
  commits : nat;
  faults : list (option exn);
  stdout : list string
}.

Inductive outcome (A : Type) :=
  | Return (a : A)
  | Raise (e : exn).
Arguments Return {A} a.
Arguments Raise {A} e.

(** Computations over the session that either return or raise. *)
Definition M (A : Type) : Type := session → outcome A * session.

#[global] Instance M_ret : MRet M := λ A a s, (Return a, s).
#[global] Instance M_bind : MBind M := λ A B f m s,
  match m s with
  | (Return a, s') => f a s'
  | (Raise e, s') => (Raise e, s')
  end.

Definition raise {A} (e : exn) : M A := λ s, (Raise e, s).

(** [try: body except Exception as e: handler e] *)
Definition try_except {A} (body : M A) (handler : exn → M A) : M A := λ s,
  match body s with
  | (Return a, s') => (Return a, s')
  | (Raise e, s') => handler e s'
  end.

(** [print(line)] *)
Definition print (line : string) : M unit := λ s,
  (Return (), mk_session (store s) (commits s) (faults s) (stdout s ++ [line])).

(** The engine takes its next answer from [faults]. *)
Definition next_fault (s : session) : option exn :=
  match faults s with
  | Some e :: _ => Some e
  | _ => None
  end.

Definition consume_fault (s : session) : session :=
  mk_session (store s) (commits s) (tail (faults s)) (stdout s).

(** [query.all()]: execute [q] against the rows and fetch every result. *)
Definition all {A} (q : database → list A) : M (list A) := λ s,
  match next_fault s with
  | Some e => (Raise e, consume_fault s)
  | None => (Return (q (store s)), consume_fault s)
  end.

(** [query.first()]: execute [q] and fetch the first result, or [None]. *)
Definition first {A} (q : database → list A) : M (option A) := λ s,
  match next_fault s with
  | Some e => (Raise e, consume_fault s)
  | None => (Return (head (q (store s))), consume_fault s)
  end.

(** ** Relational operators *)

(** [ORDER BY]: a stable insertion sort by the order [le]. *)
Fixpoint insert_by {A} (le : A → A → bool) (x : A) (l : list A) : list A :=
  match l with
  | [] => [x]
  | y :: l' => if le x y then x :: l else y :: insert_by le x l'
  end.

Definition order_by {A} (le : A → A → bool) (l : list A) : list A :=
  foldr (insert_by le) [] l.

(** [DISTINCT] *)
Definition distinct {A} `{EqDecision A} (l : list A) : list A := remove_dups l.

(** [GROUP BY key] with the aggregate [count(col)]: one row per distinct key,
    with the number of rows of its group whose counted column is not NULL. *)
Definition group_count {R K} `{EqDecision K}
    (key : R → K) (not_null : R → bool) (rows : list R) : list (K * nat) :=
  (λ k, (k, length (filter (λ r, key r = k ∧ not_null r = true) rows)))
    <$> distinct (key <$> rows).

(** [Conference JOIN ConferenceInstance] on the foreign key, the conference
    table scanned in the outer loop. *)
Definition conference_join_instance (db : database)
    : list (Conference.t * ConferenceInstance.t) :=
  c ← conferences db;
  i ← instances db;
  if decide (Conference.conference_id c = ConferenceInstance.conference_id i)
  then [(c, i)] else [].

(** [ConferenceInstance JOIN Conference] on the foreign key, the instance
    table scanned in the outer loop. *)
Definition instance_join_conference (db : database)
    : list (ConferenceInstance.t * Conference.t) :=
  i ← instances db;
  c ← conferences db;
  if decide (Conference.conference_id c = ConferenceInstance.conference_id i)
  then [(i, c)] else [].

(** The Paper rows whose [instance_id] is that of the instance [i]. *)
Definition papers_of (db : database) (i : ConferenceInstance.t)
    : list Paper.t :=
  filter (λ p, ConferenceInstance.instance_id i = Paper.instance_id p)
         (papers db).

(** The rows that the outer join with Paper makes of one row: one for each
    paper of the instance, or a single one with the paper columns NULL. *)
Definition expand (db : database) (r : Conference.t * ConferenceInstance.t)
    : list (Conference.t * ConferenceInstance.t * option Paper.t) :=
  match papers_of db r.2 with
  | [] => [(r, None)]
  | ps => (λ p, (r, Some p)) <$> ps
  end.

(** [... LEFT OUTER JOIN Paper ON instance_id = Paper.instance_id] *)
Definition outerjoin_paper (db : database)
    (rows : list (Conference.t * ConferenceInstance.t))
    : list (Conference.t * ConferenceInstance.t * option Paper.t) :=
  rows ≫= expand db.

(** [.desc()] on an integer column. *)
Definition desc (a b : Z) : bool := b <=? a.

(** [ConferenceInstance.year.desc()] *)
Definition year_desc (i j : ConferenceInstance.t) : bool :=
  desc (ConferenceInstance.year i) (ConferenceInstance.year j).

(** ** Writing: the unit of work of [upsert] *)

(** The parameter names of [upsert]: Python binds a keyword of such a name to
    the parameter, so a [**kwargs] that holds one next to the positional
    arguments is refused at the call. *)
Definition parameter_names : list string :=
  ["self"; "conference_id"; "name"; "year"].

Definition bind_arguments (kwargs : gmap string value) : M unit :=
  if decide (Exists (λ k, is_Some (kwargs !! k)) parameter_names)
  then raise (TypeError "upsert() got multiple values for argument")
  else mret ().

(** [setattr(instance, key, value)]. The identity column holds integers. *)
Definition setattr (inst : ConferenceInstance.t) (key : string) (v : value)
    : ConferenceInstance.t :=
  let '(ConferenceInstance.mk pk cid cname y attrs) := inst in
  if decide (key = "conference_name") then
    ConferenceInstance.mk pk cid v y attrs
  else if decide (key = "instance_id") then
    match v with
    | VInt z => ConferenceInstance.mk z cid cname y attrs
    | _ => inst
    end
  else ConferenceInstance.mk pk cid cname y (<[key := v]> attrs).

(** [for key, value in kwargs.items(): setattr(instance, key, value)] *)
Definition setattrs (inst : ConferenceInstance.t) (kwargs : gmap string value)
    : ConferenceInstance.t :=
  map_fold (λ key v acc, setattr acc key v) inst kwargs.

(** [ConferenceInstance(conference_id=..., conference_name=name, year=year,
    **kwargs)]: a keyword given twice is a [TypeError]; otherwise the object
    is built and waits for its identity. *)
Definition construct (conference_id name : string) (year : Z)
    (kwargs : gmap string value) : M (Z → ConferenceInstance.t) :=
  if decide (is_Some (kwargs !! "conference_name"))
  then raise (TypeError
         "got multiple values for keyword argument 'conference_name'")
  else mret (λ pk,
         ConferenceInstance.mk pk conference_id (VStr name) year
           (delete "instance_id" kwargs)).

Definition instance_ids (db : database) : list Z :=
  ConferenceInstance.instance_id <$> instances db.

(** The identity the engine gives a row inserted without one. *)
Definition fresh_instance_id (db : database) : Z :=
  1 + foldr Z.max 0 (instance_ids db).

Definition with_instances (db : database) (l : list ConferenceInstance.t)
    : database :=
  mk_database (conferences db) l (papers db) (sessions db).

(** Flushing a loaded object whose attributes were assigned: the row of its
    identity takes the assignments. The flush fails when the identity was
    assigned something that is not a free integer. *)
Definition flush_dirty (inst : ConferenceInstance.t)
    (kwargs : gmap string value) (db : database)
    : option (database * ConferenceInstance.t) :=
  let old := ConferenceInstance.instance_id inst in
  let inst' := setattrs inst kwargs in
  let new := ConferenceInstance.instance_id inst' in
  let pk_ok :=
    match kwargs !! "instance_id" with
    | None => true
    | Some (VInt _) =>
        bool_decide (new = old) || bool_decide (new ∉ instance_ids db)
    | Some _ => false
    end in
  if pk_ok then
    Some (with_instances db
            ((λ r, if decide (ConferenceInstance.instance_id r = old)
                   then setattrs r kwargs else r)
               <$> instances db),
          inst')
  else None.

(** [session.add(instance)] followed by the flush: the row is appended under
    the identity it was given, or under a fresh one. The flush fails when the
    given identity is taken or is not an integer. *)
Definition flush_new (new : Z → ConferenceInstance.t)
    (kwargs : gmap string value) (db : database)
    : option (database * ConferenceInstance.t) :=
  let insert pk := Some (with_instances db (instances db ++ [new pk]), new pk) in
  match kwargs !! "instance_id" with
  | None | Some VNone => insert (fresh_instance_id db)
  | Some (VInt z) =>
      if decide (z ∈ instance_ids db) then None else insert z
  | Some (VStr _) => None
  end.

(** [session.commit()]: flush the unit of work and commit. When the engine
    refuses the statement or a constraint fails, the error is raised and the
    transaction is rolled back: the committed rows stay as they were. *)
Definition commit {A} (flush : database → option (database * A)) : M A := λ s,
  match next_fault s with
  | Some e => (Raise e, consume_fault s)
  | None =>
      match flush (store s) with
      | Some (db', a) =>
          (Return a,
           mk_session db' (S (commits s)) (tail (faults s)) (stdout s))
      | None => (Raise (SQLAlchemyError "IntegrityError"), consume_fault s)
      end
  end.

(** ** The repository *)

(** The [year] argument of [get_conference_stats]: [None], an [int], or the
    front end's string ["All Years"]. *)
Inductive year_arg :=
  | YNone
  | YInt (z : Z)
  | YAllYears.

(** Python truth value of the argument. *)
Definition truthy (y : year_arg) : bool :=
  match y with
  | YNone => false
  | YInt z => negb (z =? 0)
  | YAllYears => true
  end.

(** [year != "All Years"] *)
Definition not_all_years (y : year_arg) : bool :=
  match y with
  | YAllYears => false
  | _ => true
  end.

(** [ConferenceInstance.year == year] *)
Definition year_is (y : year_arg) (i : ConferenceInstance.t) : bool :=
  match y with
  | YInt z => ConferenceInstance.year i =? z
  | _ => false
  end.

(** [query(ConferenceInstance).filter_by(conference_id=..., year=...)] *)
Definition instances_for (conference_id : string) (year : Z) (db : database)
    : list ConferenceInstance.t :=
  filter (λ i, ConferenceInstance.conference_id i = conference_id
               ∧ ConferenceInstance.year i = year)
         (instances db).

Module ConferenceInstanceRepository.

(** Look the Conference up and raise when it is absent; look the instance of
    (conference_id, year) up; assign the keyword arguments to it, or construct
    and add a new one; commit; return the instance. *)
Definition upsert (conference_id name : string) (year : Z)
    (kwargs : gmap string value) : M ConferenceInstance.t :=
  _ ← bind_arguments kwargs;
  conference ← first (λ db,
    filter (λ c, Conference.conference_id c = conference_id)
           (conferences db));
  match conference with
  | None => raise (ValueError "Conference not found")
  | Some _ =>
      instance ← first (instances_for conference_id year);
      pending ← match instance with
                | Some inst => mret (flush_dirty inst kwargs)
                | None =>
                    new ← construct conference_id name year kwargs;
                    mret (flush_new new kwargs)
                end;
      commit pending
  end.

(** [query(Conference.name).distinct().all()], then Python's [sorted], which
    compares strings by code points. *)
Definition get_all_conferences : M (list string) :=
  conferences ← all (λ db, distinct (Conference.name <$> conferences db));
  mret (order_by String.leb conferences).

(** [SELECT DISTINCT year FROM conference_instance ORDER BY year DESC] *)
Definition get_all_years : M (list Z) :=
  all (λ db,
    order_by desc
      (distinct (ConferenceInstance.year <$> instances db))).

(** [SELECT DISTINCT name FROM conference JOIN conference_instance
    WHERE year = :year ORDER BY name], the names compared by code points
    (the binary collation). *)
Definition get_conferences_by_year (year : Z) : M (list string) :=
  all (λ db,
    order_by String.leb
      (distinct
         ((λ r, Conference.name r.1)
            <$> filter (λ r, ConferenceInstance.year r.2 = year)
                  (conference_join_instance db)))).

(** [SELECT DISTINCT year FROM conference_instance JOIN conference
    WHERE name = :conference ORDER BY year DESC] *)
Definition get_conference_years (conference : string) : M (list Z) :=
  all (λ db,
    order_by desc
      (distinct
         ((λ r, ConferenceInstance.year r.1)
            <$> filter (λ r, Conference.name r.2 = conference)
                  (instance_join_conference db)))).

(** The statement [get_conference_stats] builds before it runs it. *)
Definition conference_stats_query (conference : string) (year : year_arg)
    (db : database) : list (ConferenceInstance.t * nat) :=
  let query :=
    filter (λ r, Conference.name r.1.1 = conference)
      (outerjoin_paper db (conference_join_instance db)) in
  let query :=
    if truthy year && not_all_years year
    then filter (λ r, year_is year r.1.2 = true) query
    else query in
  order_by (λ a b, year_desc a.1 b.1)
    (group_count (λ r, r.1.2) (λ r, bool_decide (is_Some r.2)) query).

Definition get_conference_stats (conference : string) (year : year_arg)
    : M (list (ConferenceInstance.t * nat)) :=
  try_except
    (all (conference_stats_query conference year))
    (λ e,
      _ ← print ("Error in get_conference_stats: " +:+ str e);
      mret []).

(** The same joins, filtered by year and grouped by the conference name;
    no [ORDER BY], no [try]. *)
Definition get_yearly_conference_stats (year : Z)
    : M (list (string * nat)) :=
  all (λ db,
    group_count (λ r, Conference.name r.1.1)
      (λ r, bool_decide (is_Some r.2))
      (filter (λ r, ConferenceInstance.year r.1.2 = year)
         (outerjoin_paper db (conference_join_instance db)))).

(** The sessions of an instance; [joinedload] fetches the speaker relation
    with them, which the rows of the model already carry. *)
Definition get_sessions_by_instance (instance_id : Z)
    : M (list Session.t) :=
  try_except
    (sessions ← all (λ db,
       filter (λ x, Session.instance_id x = instance_id) (sessions db));
     mret sessions)
    (λ e,
      _ ← print ("Error getting sessions: " +:+ str e);
      mret []).

(** [filter_by(year=year, conference_name=conference_name).first()] *)
Definition get_instance_by_year_and_name (year : Z)
    (conference_name : string) : M (option ConferenceInstance.t) :=
  try_except
    (instance ← first (λ db,
       filter (λ i, ConferenceInstance.year i = year
                    ∧ ConferenceInstance.conference_name i
                      = VStr conference_name)
              (instances db));
     mret instance)
    (λ e,
      _ ← print ("Error getting conference instance: " +:+ str e);
      mret None).

End ConferenceInstanceRepository.

(** ** The scenario of the specification *)

(** Conference "AAAI" with instances for 2022 (five papers) and 2023 (none),
    and conference "NeurIPS" with an instance for 2023. *)
Module Scenario.
Definition aaai_2022 : ConferenceInstance.t :=
  ConferenceInstance.mk 1 "aaai" (VStr "AAAI") 2022 ∅.
Definition aaai_2023 : ConferenceInstance.t :=
  ConferenceInstance.mk 2 "aaai" (VStr "AAAI") 2023 ∅.
Definition neurips_2023 : ConferenceInstance.t :=
  ConferenceInstance.mk 3 "neurips" (VStr "NeurIPS") 2023 ∅.

Definition db : database :=
  mk_database
    [Conference.mk "neurips" "NeurIPS"; Conference.mk "aaai" "AAAI"]
    [aaai_2022; aaai_2023; neurips_2023]
    ((λ k, Paper.mk k 1) <$> [10; 11; 12; 13; 14])
    [Session.mk 7 2 [40; 41]].

(** A session whose engine answers every statement. *)
Definition healthy : session := mk_session db 0 [] [].

(** A session whose engine refuses the next statement. *)
Definition broken : session :=
  mk_session db 0 [Some (SQLAlchemyError "connection lost")] [].

Definition location : gmap string value := {["location" := VStr "Vancouver"]}.
End Scenario.

(** ** The vocabulary of the contract *)

(** The engine answers every statement to come. *)
Definition no_faults (s : session) : Prop :=
  Forall (λ f, f = None) (faults s).

(** The committed rows and the number of commits are the same. *)
Definition unchanged (s s' : session) : Prop :=
  store s' = store s ∧ commits s' = commits s.

(** [i] is an instance of a conference named [conference]. *)
Definition instance_of (db : database) (conference : string)
    (i : ConferenceInstance.t) : Prop :=
  Exists (λ c, Conference.conference_id c = ConferenceInstance.conference_id i
               ∧ Conference.name c = conference)
         (conferences db).

#[global] Instance instance_of_dec db conference i :
  Decision (instance_of db conference i).
Proof. unfold instance_of. apply _. Defined.

(** The years a year argument selects: every year when the argument is
    absent, the sentinel or the integer 0; else the year given. *)
Definition year_selected (y : year_arg) (i : ConferenceInstance.t) : Prop :=
  match y with
  | YInt z => z = 0 ∨ ConferenceInstance.year i = z
  | YNone | YAllYears => True
  end.

#[global] Instance year_selected_dec y i : Decision (year_selected y i).
Proof. destruct y; simpl; apply _. Defined.

(** Whether an instance passes the year filter that [get_conference_stats]
    applies for the argument [y]. *)
Definition passes_year (y : year_arg) (i : ConferenceInstance.t) : bool :=
  implb (truthy y && not_all_years y) (year_is y i).

(** [getattr(instance, key)], [None] for an attribute never assigned. *)
Definition getattr (inst : ConferenceInstance.t) (key : string)
    : option value :=
  if decide (key = "instance_id") then
    Some (VInt (ConferenceInstance.instance_id inst))
  else if decide (key = "conference_id") then
    Some (VStr (ConferenceInstance.conference_id inst))
  else if decide (key = "conference_name") then
    Some (ConferenceInstance.conference_name inst)
  else if decide (key = "year") then
    Some (VInt (ConferenceInstance.year inst))
  else ConferenceInstance.attrs inst !! key.

(** The uniqueness invariant of the data model: at most one instance of
    each (conference_id, year) pair. *)
Definition unique_pairs (db : database) : Prop :=
  ∀ conference_id year,
    (length (instances_for conference_id year db) ≤ 1)%nat.

(** An instance matches the lookup by year and name. *)
Definition named (year : Z) (conference_name : string)
    (i : ConferenceInstance.t) : Prop :=
  ConferenceInstance.year i = year
  ∧ ConferenceInstance.conference_name i = VStr conference_name.

#[global] Instance named_dec year conference_name i :
  Decision (named year conference_name i).
Proof. unfold named. apply _. Defined.

(** ** Sorting *)

Section order_by.
Context {A : Type} (le : A → A → bool).
Let R : relation A := λ a b, le a b = true.

Lemma insert_by_Permutation x l : insert_by le x l ≡ₚ x :: l.
Proof.
  induction l as [|y l IH]; simpl; [done|].
  destruct (le x y); [done|].
  rewrite IH. apply Permutation_swap.
Qed.

Lemma order_by_Permutation l : order_by le l ≡ₚ l.
Proof.
  induction l as [|x l IH]; simpl; [done|].
  fold (order_by le l). by rewrite insert_by_Permutation, IH.
Qed.

Lemma elem_of_order_by x l : x ∈ order_by le l ↔ x ∈ l.
Proof. by rewrite order_by_Permutation. Qed.

Lemma NoDup_order_by l : NoDup l → NoDup (order_by le l).
Proof. by rewrite order_by_Permutation. Qed.

Hypothesis le_total : ∀ a b, le a b = true ∨ le b a = true.

Lemma insert_by_HdRel a x l :
  R a x → HdRel R a l → HdRel R a (insert_by le x l).
Proof.
  intros Hax Hl. destruct l as [|y l]; simpl; [by constructor|].
  destruct (le x y); constructor; [done|]. by inversion Hl.
Qed.

Lemma insert_by_Sorted x l : Sorted R l → Sorted R (insert_by le x l).
Proof.
  induction 1 as [|y l Hl IH Hhd]; simpl; [by repeat constructor|].
  destruct (le x y) eqn:Hxy.
  - constructor; [by constructor|by constructor].
  - constructor; [done|]. apply insert_by_HdRel; [|done].
    destruct (le_total x y) as [Hle|Hle]; [congruence|done].
Qed.

Lemma order_by_Sorted l : Sorted R (order_by le l).
Proof.
  induction l as [|x l IH]; simpl; [constructor|].
  by apply insert_by_Sorted.
Qed.

Lemma order_by_StronglySorted `{!Transitive R} l :
  StronglySorted R (order_by le l).
Proof. apply Sorted_StronglySorted; [done|apply order_by_Sorted]. Qed.
End order_by.

(** A sorted list without repetition is strictly sorted. *)
Lemma StronglySorted_strict {A} (R R' : relation A) (l : list A) :
  (∀ a b, R a b → a ≠ b → R' a b) →
  NoDup l → StronglySorted R l → StronglySorted R' l.
Proof.
  intros Hstrict Hnd Hs. induction Hs as [|x l Hs IH Hall]; [constructor|].
  apply NoDup_cons in Hnd as [Hx Hnd]. constructor; [by apply IH|].
  rewrite Forall_forall in Hall |- *. intros y Hy.
  apply Hstrict; [by apply Hall|]. intros ->. by apply Hx.
Qed.

Lemma desc_total a b : desc a b = true ∨ desc b a = true.
Proof. unfold desc. lia. Qed.

#[local] Instance desc_trans : Transitive (λ a b, desc a b = true).
Proof. unfold desc. intros a b c. lia. Qed.

Lemma order_by_desc_strict (l : list Z) :
  NoDup l → StronglySorted (λ a b, b < a) (order_by desc l).
Proof.
  intros Hnd.
  apply (StronglySorted_strict (λ a b, desc a b = true)).
  - unfold desc. intros a b. lia.
  - by apply NoDup_order_by.
  - apply order_by_StronglySorted; [apply desc_total|apply _].
Qed.

(** The order of strings by code points, as [String.leb] decides it. *)
Lemma ascii_compare_Eq a b : Ascii.compare a b = Eq → a = b.
Proof.
  unfold Ascii.compare. intros H%N.compare_eq.
  rewrite <-(Ascii.ascii_N_embedding a), <-(Ascii.ascii_N_embedding b).
  by f_equal.
Qed.

Lemma string_compare_trans c s1 s2 s3 :
  String.compare s1 s2 = c → String.compare s2 s3 = c →
  String.compare s1 s3 = c.
Proof.
  revert s2 s3. induction s1 as [|a1 s1 IH]; intros [|a2 s2] [|a3 s3];
    simpl; try congruence.
  unfold Ascii.compare.
  destruct (N.compare_spec (Ascii.N_of_ascii a1) (Ascii.N_of_ascii a2)) as [E12|L12|G12];
  destruct (N.compare_spec (Ascii.N_of_ascii a2) (Ascii.N_of_ascii a3)) as [E23|L23|G23];
  destruct (N.compare_spec (Ascii.N_of_ascii a1) (Ascii.N_of_ascii a3)) as [E13|L13|G13];
    try congruence; try lia; eauto.
Qed.

Lemma string_leb_trans s1 s2 s3 :
  String.leb s1 s2 = true → String.leb s2 s3 = true → String.leb s1 s3 = true.
Proof.
  unfold String.leb.
  destruct (String.compare s1 s2) eqn:H12; [|
    destruct (String.compare s2 s3) eqn:H23 |]; try done.
  - apply String.compare_eq_iff in H12 as ->. done.
  - apply String.compare_eq_iff in H23 as ->. by rewrite H12.
  - by rewrite (string_compare_trans Lt s1 s2 s3).
Qed.

#[local] Instance string_leb_transitive :
  Transitive (λ a b, String.leb a b = true).
Proof. intros a b c. apply string_leb_trans. Qed.

Lemma order_by_string_strict (l : list string) :
  NoDup l → StronglySorted (λ a b, String.ltb a b = true) (order_by String.leb l).
Proof.
  intros Hnd.
  apply (StronglySorted_strict (λ a b, String.leb a b = true)).
  - unfold String.leb, String.ltb. intros a b Hle Hne.
    destruct (String.compare a b) eqn:Hc; try done.
    by apply String.compare_eq_iff in Hc.
  - by apply NoDup_order_by.
  - apply order_by_StronglySorted; [apply String.leb_total|apply _].
Qed.

(** ** Joins *)

Lemma elem_of_conference_join_instance db c i :
  (c, i) ∈ conference_join_instance db ↔
    c ∈ conferences db ∧ i ∈ instances db
    ∧ Conference.conference_id c = ConferenceInstance.conference_id i.
Proof.
  unfold conference_join_instance. split.
  - intros (c' & Hin & Hc)%list_elem_of_bind.
    apply list_elem_of_bind in Hin as (i' & Hin & Hi).
    case_decide; [|by apply elem_of_nil in Hin].
    apply list_elem_of_singleton in Hin as [= -> ->]. done.
  - intros (Hc & Hi & Heq). apply list_elem_of_bind. exists c. split; [|done].
    apply list_elem_of_bind. exists i. split; [|done].
    rewrite decide_True by done. by apply list_elem_of_singleton.
Qed.

Lemma elem_of_instance_join_conference db i c :
  (i, c) ∈ instance_join_conference db ↔
    c ∈ conferences db ∧ i ∈ instances db
    ∧ Conference.conference_id c = ConferenceInstance.conference_id i.
Proof.
  unfold instance_join_conference. split.
  - intros (i' & Hin & Hi)%list_elem_of_bind.
    apply list_elem_of_bind in Hin as (c' & Hin & Hc).
    case_decide; [|by apply elem_of_nil in Hin].
    apply list_elem_of_singleton in Hin as [= -> ->]. done.
  - intros (Hc & Hi & Heq). apply list_elem_of_bind. exists i. split; [|done].
    apply list_elem_of_bind. exists c. split; [|done].
    rewrite decide_True by done. by apply list_elem_of_singleton.
Qed.

Lemma instance_of_spec db conference i :
  instance_of db conference i ↔
    ∃ c, c ∈ conferences db
         ∧ Conference.conference_id c = ConferenceInstance.conference_id i
         ∧ Conference.name c = conference.
Proof. unfold instance_of. by rewrite Exists_exists. Qed.

(** The engine answers the next statement. *)
Lemma all_ok {A} (q : database → list A) s :
  next_fault s = None → (all q s).1 = Return (q (store s)).
Proof. unfold all. by intros ->. Qed.

(** ** The lists of years and of names *)

(** C6. When the engine answers, [get_all_years] returns each year that
    occurs in the ConferenceInstance table, each exactly once, in strictly
    descending order. *)
Theorem get_all_years_distinct_descending (s : session) :
  next_fault s = None →
  ∃ years,
    (ConferenceInstanceRepository.get_all_years s).1 = Return years
    ∧ (∀ y, y ∈ years ↔
         ∃ i, i ∈ instances (store s) ∧ ConferenceInstance.year i = y)
    ∧ NoDup years
    ∧ StronglySorted (λ a b, b < a) years.
Proof.
  intros Hok. eexists. split; [by apply all_ok|]. split; [|split].
  - intros y. unfold distinct.
    rewrite elem_of_order_by, elem_of_remove_dups, list_elem_of_fmap.
    split; [intros (i & -> & Hi)|intros (i & Hi & <-)]; eauto.
  - apply NoDup_order_by, NoDup_remove_dups.
  - apply order_by_desc_strict, NoDup_remove_dups.
Qed.

Lemma get_all_years_witness :
  ∃ years,
    (ConferenceInstanceRepository.get_all_years Scenario.healthy).1
      = Return years
    ∧ (∀ y, y ∈ years ↔
         ∃ i, i ∈ instances (store Scenario.healthy)
              ∧ ConferenceInstance.year i = y)
    ∧ NoDup years
    ∧ StronglySorted (λ a b, b < a) years.
Proof. apply get_all_years_distinct_descending. reflexivity. Defined.

(** C5. When the engine answers, [get_conference_years conference] contains
    a year exactly when an instance of a conference of that name exists for
    it, and the years are strictly descending, so none occurs twice. *)
Theorem get_conference_years_exact_descending (s : session)
    (conference : string) :
  next_fault s = None →
  ∃ years,
    (ConferenceInstanceRepository.get_conference_years conference s).1
      = Return years
    ∧ (∀ y, y ∈ years ↔
         ∃ i, i ∈ instances (store s)
              ∧ instance_of (store s) conference i
              ∧ ConferenceInstance.year i = y)
    ∧ StronglySorted (λ a b, b < a) years.
Proof.
  intros Hok. eexists. split; [by apply all_ok|]. split.
  - intros y. unfold distinct.
    rewrite elem_of_order_by, elem_of_remove_dups, list_elem_of_fmap. split.
    + intros ([i c] & -> & [Hname Hin]%list_elem_of_filter).
      apply elem_of_instance_join_conference in Hin as (Hc & Hi & Heq).
      exists i. split; [done|]. split; [|done].
      apply instance_of_spec. by exists c.
    + intros (i & Hi & (c & Hc & Heq & Hname)%instance_of_spec & <-).
      exists (i, c). split; [done|]. apply list_elem_of_filter. split; [done|].
      by apply elem_of_instance_join_conference.
  - apply order_by_desc_strict, NoDup_remove_dups.
Qed.

Lemma get_conference_years_witness :
  ∃ years,
    (ConferenceInstanceRepository.get_conference_years "AAAI"
       Scenario.healthy).1 = Return years
    ∧ (∀ y, y ∈ years ↔
         ∃ i, i ∈ instances (store Scenario.healthy)
              ∧ instance_of (store Scenario.healthy) "AAAI" i
              ∧ ConferenceInstance.year i = y)
    ∧ StronglySorted (λ a b, b < a) years.
Proof. apply get_conference_years_exact_descending. reflexivity. Defined.

(** C7. When the engine answers, [get_conferences_by_year year] returns
    exactly the names of the conferences with an instance in that year, each
    name once, in ascending order of the strings. *)
Theorem get_conferences_by_year_exact_sorted (s : session) (year : Z) :
  next_fault s = None →
  ∃ names,
    (ConferenceInstanceRepository.get_conferences_by_year year s).1
      = Return names
    ∧ (∀ n, n ∈ names ↔
         ∃ i, i ∈ instances (store s)
              ∧ instance_of (store s) n i
              ∧ ConferenceInstance.year i = year)
    ∧ NoDup names
    ∧ StronglySorted (λ a b, String.ltb a b = true) names.
Proof.
  intros Hok. eexists. split; [by apply all_ok|]. split; [|split].
  - intros n. unfold distinct.
    rewrite elem_of_order_by, elem_of_remove_dups, list_elem_of_fmap. split.
    + intros ([c i] & -> & [Hyear Hin]%list_elem_of_filter).
      apply elem_of_conference_join_instance in Hin as (Hc & Hi & Heq).
      exists i. split; [done|]. split; [|done].
      apply instance_of_spec. by exists c.
    + intros (i & Hi & (c & Hc & Heq & Hname)%instance_of_spec & Hyear).
      exists (c, i). split; [done|]. apply list_elem_of_filter. split; [done|].
      by apply elem_of_conference_join_instance.
  - apply NoDup_order_by, NoDup_remove_dups.
  - apply order_by_string_strict, NoDup_remove_dups.
Qed.

Lemma get_conferences_by_year_witness :
  ∃ names,
    (ConferenceInstanceRepository.get_conferences_by_year 2023
       Scenario.healthy).1 = Return names
    ∧ (∀ n, n ∈ names ↔
         ∃ i, i ∈ instances (store Scenario.healthy)
              ∧ instance_of (store Scenario.healthy) n i
              ∧ ConferenceInstance.year i = 2023)
    ∧ NoDup names
    ∧ StronglySorted (λ a b, String.ltb a b = true) names.
Proof. apply get_conferences_by_year_exact_sorted. reflexivity. Defined.

(** The scenario of the specification: both conferences have a 2023
    instance, and the names come back in alphabetical order. *)
Example get_conferences_by_year_scenario :
  (ConferenceInstanceRepository.get_conferences_by_year 2023
     Scenario.healthy).1 = Return ["AAAI"; "NeurIPS"].
Proof. reflexivity. Qed.

(** ** Paper counts per instance *)

Section list_bind.
Context {A B : Type}.
Implicit Types (f : A → list B) (l : list A).

Lemma filter_bind (P : B → Prop) `{!∀ x, Decision (P x)} f l :
  filter P (l ≫= f) = l ≫= (λ x, filter P (f x)).
Proof.
  induction l as [|x l IH]; [done|].
  by rewrite !bind_cons, filter_app, IH.
Qed.

Lemma bind_all_nil f l : (∀ y, y ∈ l → f y = []) → l ≫= f = [].
Proof.
  induction l as [|x l IH]; intros Hnil; [done|].
  rewrite bind_cons, Hnil, IH; [done| |left].
  intros y Hy. apply Hnil. by right.
Qed.

(** Only one element of a list without repetition contributes. *)
Lemma bind_only x f l :
  NoDup l → x ∈ l → (∀ y, y ∈ l → y ≠ x → f y = []) → l ≫= f = f x.
Proof.
  induction l as [|z l IH]; intros Hnd Hx Hnil; [by apply elem_of_nil in Hx|].
  apply NoDup_cons in Hnd as [Hz Hnd]. rewrite bind_cons.
  apply elem_of_cons in Hx as [->|Hx].
  - rewrite bind_all_nil; [by rewrite app_nil_r|].
    intros y Hy. apply Hnil; [by right|]. intros ->. done.
  - rewrite Hnil, IH; [done..| |left|].
    + intros y Hy. apply Hnil. by right.
    + intros ->. done.
Qed.
End list_bind.

Lemma list_bind_assoc {A B C} (f : A → list B) (g : B → list C) (l : list A) :
  (l ≫= f) ≫= g = l ≫= (λ x, f x ≫= g).
Proof.
  induction l as [|x l IH]; [done|].
  by rewrite !bind_cons, bind_app, IH.
Qed.

Lemma NoDup_fmap_eq {A B} (f : A → B) (l : list A) x y :
  NoDup (f <$> l) → x ∈ l → y ∈ l → f x = f y → x = y.
Proof.
  induction l as [|z l IH]; intros Hnd Hx Hy Hf; [by apply elem_of_nil in Hx|].
  rewrite fmap_cons in Hnd. apply NoDup_cons in Hnd as [Hz Hnd].
  apply elem_of_cons in Hx as [->|Hx]; apply elem_of_cons in Hy as [->|Hy];
    [done| | |by apply IH].
  - destruct Hz. rewrite Hf. by apply list_elem_of_fmap_2.
  - destruct Hz. rewrite <-Hf. by apply list_elem_of_fmap_2.
Qed.

Lemma elem_of_expand db r x : x ∈ expand db r → x.1 = r.
Proof.
  unfold expand. destruct (papers_of db r.2) as [|p ps].
  - by intros ->%list_elem_of_singleton.
  - by intros (q & -> & _)%list_elem_of_fmap.
Qed.

Lemma expand_inhabited db r : ∃ x, x ∈ expand db r.
Proof.
  unfold expand. destruct (papers_of db r.2) as [|p ps].
  - eexists. by apply list_elem_of_singleton.
  - eexists. rewrite fmap_cons. by left.
Qed.

(** The rows of a pair that carry a paper are as many as its papers. *)
Lemma expand_count db r (P : Conference.t * ConferenceInstance.t → Prop)
    `{!∀ x, Decision (P x)} :
  P r →
  length (filter (λ x, P x.1 ∧ bool_decide (is_Some x.2) = true)
            (expand db r))
  = length (papers_of db r.2).
Proof.
  intros HP. unfold expand. destruct (papers_of db r.2) as [|p ps].
  { rewrite filter_cons_False; [done|].
    intros [_ Hnull%bool_decide_eq_true]. by destruct Hnull. }
  generalize (p :: ps). intros l. induction l as [|q l IH]; [done|].
  rewrite fmap_cons, filter_cons_True; [simpl; by f_equal|].
  split; [done|]. apply bool_decide_eq_true. by eexists.
Qed.

Lemma elem_of_outerjoin_paper db rows x :
  x ∈ outerjoin_paper db rows → x.1 ∈ rows.
Proof.
  intros (r & Hx & Hr)%list_elem_of_bind.
  by rewrite (elem_of_expand db r x).
Qed.

Lemma outerjoin_paper_keeps db rows r :
  r ∈ rows → ∃ x, x ∈ outerjoin_paper db rows ∧ x.1 = r.
Proof.
  intros Hr. destruct (expand_inhabited db r) as [x Hx].
  exists x. split; [|by eapply elem_of_expand].
  apply list_elem_of_bind. by exists r.
Qed.

(** The rows that [get_conference_stats] groups. *)
Lemma conference_stats_query_eq conference year db :
  ConferenceInstanceRepository.conference_stats_query conference year db
  = order_by (λ a b, year_desc a.1 b.1)
      (group_count (λ r, r.1.2) (λ r, bool_decide (is_Some r.2))
         (filter (λ r, Conference.name r.1.1 = conference
                       ∧ passes_year year r.1.2 = true)
            (outerjoin_paper db (conference_join_instance db)))).
Proof.
  unfold ConferenceInstanceRepository.conference_stats_query, passes_year.
  do 2 f_equal. destruct (truthy year && not_all_years year).
  - rewrite list_filter_filter. apply list_filter_iff. simpl. tauto.
  - apply list_filter_iff. simpl. tauto.
Qed.

Lemma group_count_keys {R K} `{EqDecision K} (key : R → K) not_null rows :
  (group_count key not_null rows).*1 = distinct (key <$> rows).
Proof.
  unfold group_count. rewrite <-list_fmap_compose. apply list_fmap_id.
Qed.

Lemma elem_of_group_count {R K} `{EqDecision K}
    (key : R → K) not_null rows k n :
  (k, n) ∈ group_count key not_null rows →
  k ∈ key <$> rows
  ∧ n = length (filter (λ r, key r = k ∧ not_null r = true) rows).
Proof.
  unfold group_count, distinct.
  intros (k' & [= -> ->] & Hk)%list_elem_of_fmap.
  rewrite elem_of_remove_dups in Hk. by split.
Qed.

Lemma filter_none {A} (P : A → Prop) `{!∀ x, Decision (P x)} (l : list A) :
  (∀ x, x ∈ l → ¬ P x) → filter P l = [].
Proof.
  induction l as [|x l IH]; intros Hnone; [done|].
  rewrite filter_cons_False; [|apply Hnone; left].
  apply IH. intros y Hy. apply Hnone. by right.
Qed.

Lemma outerjoin_paper_eq db rows :
  outerjoin_paper db rows = rows ≫= expand db.
Proof. reflexivity. Qed.

(** With conference identities unique and instance rows distinct, the group
    of an instance holds one row for each of its papers. *)
Lemma stats_group_size db conference year i :
  NoDup (Conference.conference_id <$> conferences db) →
  NoDup (instances db) →
  i ∈ instances db →
  instance_of db conference i →
  passes_year year i = true →
  length
    (filter (λ r, r.1.2 = i ∧ bool_decide (is_Some r.2) = true)
       (filter (λ r, Conference.name r.1.1 = conference
                     ∧ passes_year year r.1.2 = true)
          (outerjoin_paper db (conference_join_instance db))))
  = length (papers_of db i).
Proof.
  intros Hcs His Hi (c0 & Hc0 & Hid & Hname)%instance_of_spec Hyear.
  rewrite list_filter_filter, outerjoin_paper_eq.
  unfold conference_join_instance.
  rewrite list_bind_assoc, filter_bind.
  rewrite (bind_only c0); [|by eapply NoDup_fmap_1|done|].
  - rewrite list_bind_assoc, filter_bind.
    rewrite (bind_only i); [|done|done|].
    + rewrite decide_True by done. rewrite bind_cons. simpl.
      rewrite app_nil_r.
      etrans; [|apply (expand_count db (c0, i)
        (λ r, r.2 = i ∧ Conference.name r.1 = conference
              ∧ passes_year year r.2 = true)); done].
      f_equal. apply list_filter_iff. intros x. simpl. tauto.
    + intros i' _ Hne. apply filter_none. intros x Hx [[Hxi _] _].
      case_decide; [|by apply elem_of_nil in Hx].
      rewrite bind_cons in Hx. simpl in Hx. rewrite app_nil_r in Hx.
      apply elem_of_expand in Hx. rewrite Hx in Hxi. done.
  - intros c Hc Hne. apply filter_none. intros x Hx [[Hxi _] _].
    apply list_elem_of_bind in Hx. destruct Hx as (r & Hxr & Hr).
    apply elem_of_expand in Hxr.
    apply list_elem_of_bind in Hr. destruct Hr as (i' & Hr & _).
    case_decide as Hcid; [|by apply elem_of_nil in Hr].
    apply list_elem_of_singleton in Hr. rewrite Hr in Hxr.
    rewrite Hxr in Hxi. simpl in Hxi. subst i'. apply Hne.
    eapply NoDup_fmap_eq; [done..|congruence].
Qed.

(** Which instances [get_conference_stats] returns. *)
Lemma conference_stats_instances db conference year i :
  i ∈ (ConferenceInstanceRepository.conference_stats_query
         conference year db).*1
  ↔ i ∈ instances db ∧ instance_of db conference i
    ∧ passes_year year i = true.
Proof.
  rewrite conference_stats_query_eq, order_by_Permutation, group_count_keys.
  unfold distinct. rewrite elem_of_remove_dups, list_elem_of_fmap. split.
  - intros (x & -> & [[Hname Hyear] Hx]%list_elem_of_filter).
    apply elem_of_outerjoin_paper in Hx.
    destruct x as [[c i'] p]. simpl in *.
    apply elem_of_conference_join_instance in Hx as (Hc & Hi & Hid).
    split; [done|]. split; [|done]. apply instance_of_spec. by exists c.
  - intros (Hi & (c & Hc & Hid & Hname)%instance_of_spec & Hyear).
    destruct (outerjoin_paper_keeps db (conference_join_instance db) (c, i))
      as (x & Hx & Hx1); [by apply elem_of_conference_join_instance|].
    exists x. rewrite Hx1. split; [done|].
    apply list_elem_of_filter. by rewrite Hx1.
Qed.

Lemma StronglySorted_mono {A} (R R' : relation A) (l : list A) :
  (∀ a b, R a b → R' a b) → StronglySorted R l → StronglySorted R' l.
Proof.
  intros Himpl. induction 1 as [|x l Hs IH Hall]; constructor; [done|].
  eapply Forall_impl; [done|]. auto.
Qed.

Lemma get_conference_stats_ok conference year s :
  next_fault s = None →
  (ConferenceInstanceRepository.get_conference_stats conference year s).1
  = Return (ConferenceInstanceRepository.conference_stats_query
              conference year (store s)).
Proof.
  intros Hok. unfold ConferenceInstanceRepository.get_conference_stats,
    try_except, all. by rewrite Hok.
Qed.

Lemma passes_year_selected year i :
  passes_year year i = true ↔ year_selected year i.
Proof.
  unfold passes_year. destruct year as [|z|]; simpl; [done| |done].
  destruct (Z.eqb_spec z 0), (Z.eqb_spec (ConferenceInstance.year i) z);
    simpl; intuition congruence.
Qed.

Lemma papers_of_eq db i :
  papers_of db i
  = filter (λ x, Paper.instance_id x = ConferenceInstance.instance_id i)
      (papers db).
Proof. apply list_filter_iff. intros x. split; congruence. Qed.

(** C1. With conference identities and instance identities unique, and the
    engine answering, [get_conference_stats] returns one pair for each
    instance of a conference of that name whose year is selected (every
    year when the argument is absent, the sentinel or 0; else the year
    given); the count of a pair is the number of rows of the Paper table
    whose [instance_id] is that of the instance (none gives 0); and the
    pairs are in descending order of the year. *)
Theorem get_conference_stats_counts_papers (s : session)
    (conference : string) (year : year_arg) :
  next_fault s = None →
  NoDup (Conference.conference_id <$> conferences (store s)) →
  NoDup (instance_ids (store s)) →
  ∃ stats,
    (ConferenceInstanceRepository.get_conference_stats conference year s).1
      = Return stats
    ∧ stats.*1 ≡ₚ
        filter (λ i, instance_of (store s) conference i
                     ∧ year_selected year i)
               (instances (store s))
    ∧ Forall
        (λ p, p.2 =
              length
                (filter (λ x, Paper.instance_id x
                              = ConferenceInstance.instance_id p.1)
                   (papers (store s))))
        stats
    ∧ StronglySorted
        (λ p q, ConferenceInstance.year q.1 ≤ ConferenceInstance.year p.1)
        stats.
Proof.
  intros Hok Hcs Hids. apply NoDup_fmap_1 in Hids as His.
  eexists. split; [by apply get_conference_stats_ok|]. split; [|split].
  - apply NoDup_Permutation.
    + rewrite conference_stats_query_eq, order_by_Permutation,
        group_count_keys. apply NoDup_remove_dups.
    + by apply NoDup_filter.
    + intros i. rewrite conference_stats_instances, list_elem_of_filter.
      rewrite passes_year_selected. tauto.
  - apply Forall_forall. intros [i n] Hin. simpl.
    assert (i ∈ (ConferenceInstanceRepository.conference_stats_query
                   conference year (store s)).*1) as Hi.
    { apply list_elem_of_fmap. by exists (i, n). }
    apply conference_stats_instances in Hi as (Hi & Hof & Hyear).
    rewrite conference_stats_query_eq, elem_of_order_by in Hin.
    apply elem_of_group_count in Hin as [_ ->].
    rewrite <-papers_of_eq. by apply stats_group_size.
  - rewrite conference_stats_query_eq.
    apply (StronglySorted_mono (λ p q, year_desc p.1 q.1 = true)).
    { unfold year_desc, desc. intros p q. lia. }
    apply order_by_StronglySorted.
    + unfold year_desc, desc. intros p q. lia.
    + unfold year_desc, desc. intros p q r. lia.
Qed.

Lemma get_conference_stats_counts_papers_witness :
  let stats := [(Scenario.aaai_2023, 0%nat); (Scenario.aaai_2022, 5%nat)] in
  (ConferenceInstanceRepository.get_conference_stats "AAAI" YNone
     Scenario.healthy).1 = Return stats
  ∧ stats.*1 ≡ₚ
      filter (λ i, instance_of (store Scenario.healthy) "AAAI" i
                   ∧ year_selected YNone i)
             (instances (store Scenario.healthy))
  ∧ Forall
      (λ p, p.2 =
            length
              (filter (λ x, Paper.instance_id x
                            = ConferenceInstance.instance_id p.1)
                 (papers (store Scenario.healthy))))
      stats
  ∧ StronglySorted
      (λ p q, ConferenceInstance.year q.1 ≤ ConferenceInstance.year p.1)
      stats.
Proof.
  destruct (get_conference_stats_counts_papers Scenario.healthy "AAAI" YNone)
    as (stats & Hret & Hrest).
  - reflexivity.
  - apply (bool_decide_unpack _). vm_compute. reflexivity.
  - apply (bool_decide_unpack _). vm_compute. reflexivity.
  - injection Hret as <-. split; [reflexivity|exact Hrest].
Defined.

(** The scenario of the specification: the 2023 instance without papers
    comes first with count 0, then the 2022 instance with its five papers. *)
Example get_conference_stats_scenario :
  (ConferenceInstanceRepository.get_conference_stats "AAAI" YNone
     Scenario.healthy).1
  = Return [(Scenario.aaai_2023, 0%nat); (Scenario.aaai_2022, 5%nat)].
Proof. reflexivity. Qed.

(** ** The year filter *)

(** C4, as stated, fails for the integer 0: it is not the sentinel, but
    Python takes it for false, no filter is applied, and the instances of
    2023 and 2022 come back. *)
Lemma get_conference_stats_year_zero_unfiltered :
  (ConferenceInstanceRepository.get_conference_stats "AAAI" (YInt 0)
     Scenario.healthy).1
  = Return [(Scenario.aaai_2023, 0%nat); (Scenario.aaai_2022, 5%nat)]
  ∧ ConferenceInstance.year Scenario.aaai_2023 ≠ 0.
Proof. split; [reflexivity|done]. Qed.

(** C4, amended. When the engine answers: for a nonzero integer year,
    [get_conference_stats] returns exactly the instances of the named
    conference that have that year; when the year is absent, the sentinel or
    0, it returns the instances of the named conference of every year. *)
Theorem get_conference_stats_year_filter (s : session)
    (conference : string) (year : year_arg) :
  next_fault s = None →
  ∃ stats,
    (ConferenceInstanceRepository.get_conference_stats conference year s).1
      = Return stats
    ∧ (∀ z, year = YInt z → z ≠ 0 →
         ∀ i, i ∈ stats.*1 ↔
              i ∈ instances (store s) ∧ instance_of (store s) conference i
              ∧ ConferenceInstance.year i = z)
    ∧ (year = YNone ∨ year = YAllYears ∨ year = YInt 0 →
         ∀ i, i ∈ stats.*1 ↔
              i ∈ instances (store s) ∧ instance_of (store s) conference i).
Proof.
  intros Hok. eexists. split; [by apply get_conference_stats_ok|]. split.
  - intros z -> Hz i. rewrite conference_stats_instances.
    unfold passes_year. simpl. destruct (Z.eqb_spec z 0) as [|_]; [done|].
    simpl. rewrite Z.eqb_eq. tauto.
  - intros Hyear i. rewrite conference_stats_instances.
    destruct Hyear as [->| [->| ->]]; simpl; tauto.
Qed.

Lemma get_conference_stats_year_filter_witness :
  ∃ stats,
    (ConferenceInstanceRepository.get_conference_stats "AAAI" (YInt 2022)
       Scenario.healthy).1 = Return stats
    ∧ (∀ z, YInt 2022 = YInt z → z ≠ 0 →
         ∀ i, i ∈ stats.*1 ↔
              i ∈ instances (store Scenario.healthy)
              ∧ instance_of (store Scenario.healthy) "AAAI" i
              ∧ ConferenceInstance.year i = z)
    ∧ (YInt 2022 = YNone ∨ YInt 2022 = YAllYears ∨ YInt 2022 = YInt 0 →
         ∀ i, i ∈ stats.*1 ↔
              i ∈ instances (store Scenario.healthy)
              ∧ instance_of (store Scenario.healthy) "AAAI" i).
Proof. apply get_conference_stats_year_filter. reflexivity. Defined.

(** ** Swallowed errors *)

(** C9. Whatever the arguments and the session, the three guarded reads
    return and never raise; when the engine refuses the statement they return
    the empty list, respectively [None]; and [get_instance_by_year_and_name]
    returns [None] when no instance matches. *)
Theorem guarded_reads_never_raise (s : session) (conference : string)
    (year : year_arg) (instance_id y : Z) (conference_name : string) :
  (∃ stats,
     (ConferenceInstanceRepository.get_conference_stats conference year s).1
       = Return stats
     ∧ (next_fault s ≠ None → stats = []))
  ∧ (∃ found,
       (ConferenceInstanceRepository.get_sessions_by_instance instance_id s).1
         = Return found
       ∧ (next_fault s ≠ None → found = []))
  ∧ (∃ instance,
       (ConferenceInstanceRepository.get_instance_by_year_and_name
          y conference_name s).1 = Return instance
       ∧ (next_fault s ≠ None → instance = None)
       ∧ ((∀ i, i ∈ instances (store s) →
             ¬ (ConferenceInstance.year i = y
                ∧ ConferenceInstance.conference_name i
                  = VStr conference_name)) →
          instance = None)).
Proof.
  unfold ConferenceInstanceRepository.get_conference_stats,
    ConferenceInstanceRepository.get_sessions_by_instance,
    ConferenceInstanceRepository.get_instance_by_year_and_name,
    try_except, mbind, M_bind, all, first.
  destruct (next_fault s) as [e|]; simpl.
  - repeat split; eexists; eauto.
  - split; [|split]; eexists; (split; [done|]); [done|done|].
    split; [done|]. intros Hnone. rewrite filter_none; [done|].
    intros i Hi. by apply Hnone.
Qed.

(** The scenario of the specification: no instance of 1999 named "Unknown". *)
Example get_instance_by_year_and_name_scenario :
  (ConferenceInstanceRepository.get_instance_by_year_and_name 1999 "Unknown"
     Scenario.healthy).1 = Return None.
Proof. reflexivity. Qed.

(** A refused statement is printed and swallowed. *)
Example get_conference_stats_broken :
  ConferenceInstanceRepository.get_conference_stats "AAAI" YNone
    Scenario.broken
  = (Return [],
     mk_session Scenario.db 0 []
       ["Error in get_conference_stats: connection lost"]).
Proof. reflexivity. Qed.

(** ** Frame: what the methods leave alone *)

Lemma unchanged_refl s : unchanged s s.
Proof. done. Qed.

Lemma unchanged_consume_fault s : unchanged s (consume_fault s).
Proof. done. Qed.

Lemma all_unchanged {A} (q : database → list A) s : unchanged s (all q s).2.
Proof. unfold all. by destruct (next_fault s). Qed.

Lemma first_unchanged {A} (q : database → list A) s :
  unchanged s (first q s).2.
Proof. unfold first. by destruct (next_fault s). Qed.

Lemma commit_effect {A} (flush : database → option (database * A)) s :
  match commit flush s with
  | (Return _, s') => commits s' = S (commits s)
  | (Raise _, s') => unchanged s s'
  end.
Proof.
  unfold commit. destruct (next_fault s); [done|].
  by destruct (flush (store s)) as [[db' a]|].
Qed.

Lemma upsert_effect conference_id name year kwargs s :
  match ConferenceInstanceRepository.upsert conference_id name year kwargs s
  with
  | (Return _, s') => commits s' = S (commits s)
  | (Raise _, s') => unchanged s s'
  end.
Proof.
  unfold ConferenceInstanceRepository.upsert, bind_arguments, construct,
    mbind, M_bind, mret, M_ret, raise, first.
  case_decide; [done|].
  destruct (next_fault s); [done|].
  destruct (head _); [|done].
  destruct (next_fault (consume_fault s)); [done|].
  destruct (head _).
  - apply (commit_effect _ (consume_fault (consume_fault s))).
  - case_decide; [done|].
    apply (commit_effect _ (consume_fault (consume_fault s))).
Qed.

(** C10. Every read method leaves the committed rows and the number of
    commits as they were, whatever it returns; [upsert] is the one method
    that commits: it issues one commit when it returns, and leaves rows and
    commits as they were when it raises. *)
Theorem reads_leave_database_unchanged (s : session)
    (conference conference_id name : string) (year instance_id : Z)
    (year_or_all : year_arg) (kwargs : gmap string value) :
  unchanged s (ConferenceInstanceRepository.get_all_conferences s).2
  ∧ unchanged s (ConferenceInstanceRepository.get_all_years s).2
  ∧ unchanged s (ConferenceInstanceRepository.get_conferences_by_year year s).2
  ∧ unchanged s
      (ConferenceInstanceRepository.get_conference_years conference s).2
  ∧ unchanged s
      (ConferenceInstanceRepository.get_conference_stats
         conference year_or_all s).2
  ∧ unchanged s
      (ConferenceInstanceRepository.get_yearly_conference_stats year s).2
  ∧ unchanged s
      (ConferenceInstanceRepository.get_sessions_by_instance instance_id s).2
  ∧ unchanged s
      (ConferenceInstanceRepository.get_instance_by_year_and_name
         year name s).2
  ∧ match ConferenceInstanceRepository.upsert conference_id name year kwargs s
    with
    | (Return _, s') => commits s' = S (commits s)
    | (Raise _, s') => unchanged s s'
    end.
Proof.
  repeat split; try apply all_unchanged; try apply upsert_effect;
    unfold ConferenceInstanceRepository.get_all_conferences,
      ConferenceInstanceRepository.get_conference_stats,
      ConferenceInstanceRepository.get_sessions_by_instance,
      ConferenceInstanceRepository.get_instance_by_year_and_name,
      try_except, mbind, M_bind, all, first;
    by destruct (next_fault s).
Qed.

(** ** [upsert] *)

(** C3. When no Conference row has the given [conference_id], [upsert]
    raises and leaves the committed rows and the number of commits as they
    were: no row is created and none is modified. The error is the
    [ValueError] "Conference not found" whenever the call binds its
    arguments and the engine answers the lookup. *)
Theorem upsert_unknown_conference (s : session) (conference_id name : string)
    (year : Z) (kwargs : gmap string value) :
  (∀ c, c ∈ conferences (store s) →
        Conference.conference_id c ≠ conference_id) →
  ∃ e,
    (ConferenceInstanceRepository.upsert conference_id name year kwargs s).1
      = Raise e
    ∧ unchanged s
        (ConferenceInstanceRepository.upsert
           conference_id name year kwargs s).2
    ∧ (Forall (λ k, kwargs !! k = None) parameter_names →
       next_fault s = None →
       e = ValueError "Conference not found").
Proof.
  intros Hnone.
  unfold ConferenceInstanceRepository.upsert, bind_arguments,
    mbind, M_bind, mret, M_ret, raise, first.
  case_decide as Hargs.
  { eexists. split; [done|]. split; [done|]. intros Hall _.
    apply Exists_exists in Hargs as (k & Hk & [v Hv]).
    rewrite Forall_forall in Hall. rewrite Hall in Hv; done. }
  destruct (next_fault s) as [e|].
  { exists e. split; [done|]. split; [done|]. done. }
  rewrite filter_none by (intros c Hc; by apply Hnone).
  simpl. eexists. split; [done|]. split; [done|]. done.
Qed.

Lemma upsert_unknown_conference_witness :
  ∃ e,
    (ConferenceInstanceRepository.upsert "icml" "ICML" 2023 Scenario.location
       Scenario.healthy).1 = Raise e
    ∧ unchanged Scenario.healthy
        (ConferenceInstanceRepository.upsert "icml" "ICML" 2023
           Scenario.location Scenario.healthy).2
    ∧ (Forall (λ k, Scenario.location !! k = None) parameter_names →
       next_fault Scenario.healthy = None →
       e = ValueError "Conference not found").
Proof.
  apply upsert_unknown_conference.
  apply (Forall_forall (λ c, Conference.conference_id c ≠ "icml")).
  apply (bool_decide_unpack _). vm_compute. reflexivity.
Defined.

Lemma no_faults_next s : no_faults s → next_fault s = None.
Proof.
  unfold no_faults, next_fault.
  destruct (faults s) as [|[e|] l]; [done| |done].
  by intros [[=] _]%Forall_cons.
Qed.

Lemma no_faults_consume s : no_faults s → no_faults (consume_fault s).
Proof.
  unfold no_faults, consume_fault. simpl.
  destruct (faults s); [done|]. by intros [_ ?]%Forall_cons.
Qed.

Lemma bind_run {A B} (m : M A) (f : A → M B) s :
  (m ≫= f) s
  = match m s with
    | (Return a, s') => f a s'
    | (Raise e, s') => (Raise e, s')
    end.
Proof. reflexivity. Qed.

Lemma first_ok {A} (q : database → list A) s :
  next_fault s = None →
  first q s = (Return (head (q (store s))), consume_fault s).
Proof. unfold first. by intros ->. Qed.

Lemma commit_ok {A} (flush : database → option (database * A)) s db' a :
  next_fault s = None →
  flush (store s) = Some (db', a) →
  commit flush s
  = (Return a, mk_session db' (S (commits s)) (tail (faults s)) (stdout s)).
Proof. unfold commit. by intros -> ->. Qed.

Lemma head_filter_is_Some {A} (P : A → Prop) `{!∀ x, Decision (P x)}
    (l : list A) x :
  x ∈ l → P x → is_Some (head (filter P l)).
Proof.
  intros Hx HP. assert (x ∈ filter P l) as Hin by by apply list_elem_of_filter.
  destruct (filter P l); [by apply elem_of_nil in Hin|by eexists].
Qed.

(** What the loop of assignments makes of an instance. *)
Lemma setattrs_eq inst kwargs :
  kwargs !! "instance_id" = None →
  setattrs inst kwargs
  = ConferenceInstance.mk
      (ConferenceInstance.instance_id inst)
      (ConferenceInstance.conference_id inst)
      (default (ConferenceInstance.conference_name inst)
               (kwargs !! "conference_name"))
      (ConferenceInstance.year inst)
      (delete "conference_name" kwargs ∪ ConferenceInstance.attrs inst).
Proof.
  unfold setattrs.
  apply (map_fold_weak_ind (λ r m, m !! "instance_id" = None →
    r = ConferenceInstance.mk
          (ConferenceInstance.instance_id inst)
          (ConferenceInstance.conference_id inst)
          (default (ConferenceInstance.conference_name inst)
                   (m !! "conference_name"))
          (ConferenceInstance.year inst)
          (delete "conference_name" m ∪ ConferenceInstance.attrs inst))).
  - intros _. rewrite lookup_empty, delete_empty, (left_id_L ∅ (∪)).
    by destruct inst.
  - intros k v m r Hk IH [Hid Hne]%lookup_insert_None.
    rewrite (IH Hid). unfold setattr. case_decide as Hname.
    + subst k. by rewrite lookup_insert_eq, delete_insert_eq.
    + rewrite decide_False by done.
      rewrite lookup_insert_ne, delete_insert_ne by done.
      by rewrite insert_union_l.
Qed.

Lemma setattrs_idemp inst kwargs :
  kwargs !! "instance_id" = None →
  setattrs (setattrs inst kwargs) kwargs = setattrs inst kwargs.
Proof.
  intros Hid. rewrite !setattrs_eq by done. simpl. f_equal.
  - by destruct (kwargs !! "conference_name").
  - by rewrite (assoc_L (∪)), (idemp_L (∪)).
Qed.

Lemma getattr_setattrs_assigned inst kwargs k v :
  Forall (λ k, kwargs !! k = None) ("instance_id" :: parameter_names) →
  kwargs !! k = Some v →
  getattr (setattrs inst kwargs) k = Some v.
Proof.
  intros Hkw Hk. assert (kwargs !! "instance_id" = None) as Hid.
  { by apply Forall_cons in Hkw as [? _]. }
  rewrite setattrs_eq by done. unfold getattr. simpl.
  rewrite Forall_forall in Hkw.
  repeat case_decide; subst;
    try (rewrite Hkw in Hk by (unfold parameter_names; set_solver); done).
  - by rewrite Hk.
  - apply lookup_union_Some_raw. left. by rewrite lookup_delete_ne.
Qed.


Lemma fresh_instance_id_fresh db : fresh_instance_id db ∉ instance_ids db.
Proof.
  unfold fresh_instance_id.
  assert (∀ l x, x ∈ l → x ≤ foldr Z.max 0 l) as Hmax.
  { induction l as [|y l IH]; intros x Hx; [by apply elem_of_nil in Hx|].
    simpl. apply elem_of_cons in Hx as [->|Hx]; [lia|].
    specialize (IH x Hx). lia. }
  intros Hin%Hmax. lia.
Qed.

(** The keyword arguments bind: none carries a parameter's name. *)
Lemma bind_arguments_ok kwargs s :
  Forall (λ k, kwargs !! k = None) parameter_names →
  bind_arguments kwargs s = (Return (), s).
Proof.
  intros Hkw. unfold bind_arguments. rewrite decide_False; [done|].
  intros (k & Hk & [v Hv])%Exists_exists.
  rewrite Forall_forall in Hkw. rewrite Hkw in Hv; done.
Qed.

(** [upsert] up to the branch on the looked-up instance. *)
Lemma upsert_found conference_id name year kwargs s :
  no_faults s →
  Forall (λ k, kwargs !! k = None) parameter_names →
  (∃ c, c ∈ conferences (store s)
        ∧ Conference.conference_id c = conference_id) →
  ConferenceInstanceRepository.upsert conference_id name year kwargs s
  = (pending ← match head (instances_for conference_id year (store s)) with
               | Some inst => mret (flush_dirty inst kwargs)
               | None =>
                   new ← construct conference_id name year kwargs;
                   mret (flush_new new kwargs)
               end;
     commit pending) (consume_fault (consume_fault s)).
Proof.
  intros Hs Hkw (c & Hc & Hcid).
  unfold ConferenceInstanceRepository.upsert.
  rewrite bind_run, bind_arguments_ok by done.
  rewrite bind_run, first_ok by by apply no_faults_next.
  destruct (head_filter_is_Some
    (λ c, Conference.conference_id c = conference_id)
    (conferences (store s)) c Hc Hcid) as [c' ->].
  rewrite bind_run, first_ok by by apply no_faults_next, no_faults_consume.
  reflexivity.
Qed.

(** The update branch. *)
Lemma upsert_existing conference_id name year kwargs s existing :
  no_faults s →
  Forall (λ k, kwargs !! k = None) ("instance_id" :: parameter_names) →
  (∃ c, c ∈ conferences (store s)
        ∧ Conference.conference_id c = conference_id) →
  head (instances_for conference_id year (store s)) = Some existing →
  ConferenceInstanceRepository.upsert conference_id name year kwargs s
  = (Return (setattrs existing kwargs),
     mk_session
       (with_instances (store s)
          ((λ r, if decide (ConferenceInstance.instance_id r
                            = ConferenceInstance.instance_id existing)
                 then setattrs r kwargs else r) <$> instances (store s)))
       (S (commits s)) (tail (tail (tail (faults s)))) (stdout s)).
Proof.
  intros Hs [Hid Hkw]%Forall_cons Hc Hhead.
  rewrite upsert_found, Hhead by done.
  rewrite bind_run. simpl.
  erewrite commit_ok; [done| |].
  - by apply no_faults_next, no_faults_consume, no_faults_consume.
  - unfold flush_dirty. by rewrite Hid.
Qed.

(** The create branch. *)
Lemma upsert_new conference_id name year kwargs s :
  no_faults s →
  Forall (λ k, kwargs !! k = None)
    ("conference_name" :: "instance_id" :: parameter_names) →
  (∃ c, c ∈ conferences (store s)
        ∧ Conference.conference_id c = conference_id) →
  head (instances_for conference_id year (store s)) = None →
  let new := ConferenceInstance.mk (fresh_instance_id (store s))
               conference_id (VStr name) year kwargs in
  ConferenceInstanceRepository.upsert conference_id name year kwargs s
  = (Return new,
     mk_session
       (with_instances (store s) (instances (store s) ++ [new]))
       (S (commits s)) (tail (tail (tail (faults s)))) (stdout s)).
Proof.
  intros Hs [Hname [Hid Hkw]%Forall_cons]%Forall_cons Hc Hhead new.
  rewrite upsert_found, Hhead by done.
  rewrite !bind_run. unfold construct.
  rewrite decide_False by (rewrite Hname; by intros [? ?]). simpl.
  erewrite commit_ok; [done| |].
  - by apply no_faults_next, no_faults_consume, no_faults_consume.
  - unfold flush_new. rewrite Hid. simpl. by rewrite delete_id.
Qed.



Lemma fmap_fixed {A} (g : A → A) (l : list A) :
  (∀ x, x ∈ l → g x = x) → g <$> l = l.
Proof.
  intros Hfix. rewrite <-(list_fmap_id l) at 2.
  apply list_fmap_ext. intros n x Hx. apply Hfix.
  by eapply list_elem_of_lookup_2.
Qed.

Lemma filter_fmap_stable {A} (P : A → Prop) `{!∀ x, Decision (P x)}
    (g : A → A) (l : list A) :
  (∀ x, P (g x) ↔ P x) → filter P (g <$> l) = g <$> filter P l.
Proof.
  intros Hg. induction l as [|x l IH]; [done|].
  rewrite fmap_cons, !filter_cons.
  destruct (decide (P (g x))) as [HP|HP], (decide (P x)) as [HP'|HP'].
  - by rewrite fmap_cons, IH.
  - destruct HP'. by apply Hg.
  - destruct HP. by apply Hg.
  - done.
Qed.

Lemma setattrs_key inst kwargs :
  kwargs !! "instance_id" = None →
  ConferenceInstance.instance_id (setattrs inst kwargs)
  = ConferenceInstance.instance_id inst
  ∧ ConferenceInstance.conference_id (setattrs inst kwargs)
    = ConferenceInstance.conference_id inst
  ∧ ConferenceInstance.year (setattrs inst kwargs)
    = ConferenceInstance.year inst.
Proof. intros Hid. by rewrite setattrs_eq. Qed.

(** C2. With the Conference present, the engine answering, keyword arguments
    that name extra fields only, and at most one instance of
    (conference_id, year) beforehand: two calls of [upsert] with the same
    arguments return the same instance, which is then the one row of that
    pair and carries every supplied field; the second call changes no row. *)
Theorem upsert_idempotent (s : session) (conference_id name : string)
    (year : Z) (kwargs : gmap string value) :
  no_faults s →
  Forall (λ k, kwargs !! k = None)
    ("conference_name" :: "instance_id" :: parameter_names) →
  (∃ c, c ∈ conferences (store s)
        ∧ Conference.conference_id c = conference_id) →
  (length (instances_for conference_id year (store s)) ≤ 1)%nat →
  let once :=
    ConferenceInstanceRepository.upsert conference_id name year kwargs s in
  let twice :=
    ConferenceInstanceRepository.upsert conference_id name year kwargs
      once.2 in
  ∃ row,
    once.1 = Return row
    ∧ twice.1 = Return row
    ∧ instances_for conference_id year (store twice.2) = [row]
    ∧ store twice.2 = store once.2
    ∧ ConferenceInstance.conference_id row = conference_id
    ∧ ConferenceInstance.year row = year
    ∧ (∀ k v, kwargs !! k = Some v → getattr row k = Some v).
Proof.
  intros Hs Hkw Hc Huniq once twice.
  assert (Forall (λ k, kwargs !! k = None)
            ("instance_id" :: parameter_names)) as Hkw'.
  { by apply Forall_cons in Hkw as [_ ?]. }
  assert (kwargs !! "conference_name" = None) as Hname.
  { by apply Forall_cons in Hkw as [? _]. }
  assert (kwargs !! "instance_id" = None) as Hid.
  { by apply Forall_cons in Hkw' as [? _]. }
  destruct (instances_for conference_id year (store s))
    as [|existing rest] eqn:Hfor.
  - (* the first call creates the row, the second finds it *)
    set (new := ConferenceInstance.mk (fresh_instance_id (store s))
                  conference_id (VStr name) year kwargs).
    assert (once = (Return new,
      mk_session (with_instances (store s) (instances (store s) ++ [new]))
        (S (commits s)) (tail (tail (tail (faults s)))) (stdout s)))
      as Honce.
    { subst once. apply upsert_new; [done..|]. by rewrite Hfor. }
    assert (setattrs new kwargs = new) as Hnew.
    { rewrite setattrs_eq by done. subst new. simpl. rewrite Hname. simpl.
      by rewrite delete_id, (idemp_L (∪)). }
    assert (instances_for conference_id year (store once.2) = [new]) as Hfor'.
    { rewrite Honce. unfold instances_for in *. simpl.
      rewrite filter_app, Hfor. simpl. by rewrite filter_cons_True. }
    assert (twice = (Return new,
      mk_session (store once.2) (S (commits once.2))
        (tail (tail (tail (faults once.2)))) (stdout once.2))) as Htwice.
    { subst twice.
      rewrite (upsert_existing _ _ _ _ _ new); [| |done| |by rewrite Hfor'].
      - rewrite Hnew. do 2 f_equal. rewrite Honce. simpl.
        unfold with_instances. simpl. f_equal.
        rewrite fmap_app. simpl. rewrite decide_True, Hnew by done.
        f_equal. apply fmap_fixed. intros r Hr. rewrite decide_False; [done|].
        intros Heq. apply (fresh_instance_id_fresh (store s)).
        subst new. simpl in Heq. rewrite <-Heq.
        by apply list_elem_of_fmap_2.
      - rewrite Honce. unfold no_faults. simpl.
        by do 3 apply Forall_tail.
      - rewrite Honce. done. }
    exists new. rewrite Htwice. simpl. rewrite Hfor'.
    repeat split; try done; [by rewrite Honce|].
    intros k v Hk. rewrite <-Hnew. by apply getattr_setattrs_assigned.
  - (* the row exists: both calls assign the same fields to it *)
    destruct rest; [|simpl in Huniq; lia].
    assert (existing ∈ instances_for conference_id year (store s)) as Hin.
    { rewrite Hfor. by left. }
    apply list_elem_of_filter in Hin as [[Hcid Hyear] Hin].
    destruct (setattrs_key existing kwargs Hid) as (Hk1 & Hk2 & Hk3).
    set (row := setattrs existing kwargs) in *.
    set (g := λ r, if decide (ConferenceInstance.instance_id r
                              = ConferenceInstance.instance_id existing)
                   then setattrs r kwargs else r).
    assert (once = (Return row,
      mk_session (with_instances (store s) (g <$> instances (store s)))
        (S (commits s)) (tail (tail (tail (faults s)))) (stdout s)))
      as Honce.
    { subst once. apply upsert_existing; [done..|]. by rewrite Hfor. }
    assert (instances_for conference_id year (store once.2) = [row]) as Hfor'.
    { rewrite Honce. unfold instances_for in *. simpl.
      rewrite filter_fmap_stable, Hfor.
      - simpl. subst g. simpl. by rewrite decide_True.
      - intros r. subst g. simpl. case_decide; [|done].
        destruct (setattrs_key r kwargs Hid) as (_ & -> & ->). done. }
    assert (setattrs row kwargs = row) as Hrow.
    { subst row. by apply setattrs_idemp. }
    assert (twice = (Return row,
      mk_session (store once.2) (S (commits once.2))
        (tail (tail (tail (faults once.2)))) (stdout once.2))) as Htwice.
    { subst twice.
      rewrite (upsert_existing _ _ _ _ _ row); [| |done| |by rewrite Hfor'].
      - rewrite Hrow. do 2 f_equal.
        rewrite Honce. simpl. unfold with_instances. simpl. f_equal.
        rewrite Hk1. apply fmap_fixed.
        intros r (r0 & -> & Hr0)%list_elem_of_fmap. subst g. simpl.
        destruct (decide (ConferenceInstance.instance_id r0
                          = ConferenceInstance.instance_id existing)) as [Heq|Hne].
        + destruct (setattrs_key r0 kwargs Hid) as (-> & _ & _).
          rewrite decide_True by done. by apply setattrs_idemp.
        + by rewrite decide_False.
      - rewrite Honce. unfold no_faults. simpl.
        by do 3 apply Forall_tail.
      - rewrite Honce. done. }
    exists row. rewrite Htwice. simpl. rewrite Hfor'.
    repeat split; try done; [by rewrite Honce|congruence|congruence|].
    intros k v Hk. by apply getattr_setattrs_assigned.
Qed.

Lemma upsert_idempotent_witness :
  let once :=
    ConferenceInstanceRepository.upsert "aaai" "AAAI" 2024 Scenario.location
      Scenario.healthy in
  let twice :=
    ConferenceInstanceRepository.upsert "aaai" "AAAI" 2024 Scenario.location
      once.2 in
  ∃ row,
    once.1 = Return row
    ∧ twice.1 = Return row
    ∧ instances_for "aaai" 2024 (store twice.2) = [row]
    ∧ store twice.2 = store once.2
    ∧ ConferenceInstance.conference_id row = "aaai"
    ∧ ConferenceInstance.year row = 2024
    ∧ (∀ k v, Scenario.location !! k = Some v → getattr row k = Some v).
Proof.
  apply (upsert_idempotent Scenario.healthy "aaai" "AAAI" 2024
           Scenario.location).
  - constructor.
  - apply (bool_decide_unpack _). vm_compute. reflexivity.
  - exists (Conference.mk "aaai" "AAAI"). split; [|reflexivity].
    apply (bool_decide_unpack _). vm_compute. reflexivity.
  - vm_compute. lia.
Defined.

(** The new row of the scenario: identity 4, the name argument and the
    supplied field. *)
Example upsert_creates_scenario :
  (ConferenceInstanceRepository.upsert "aaai" "AAAI" 2024 Scenario.location
     Scenario.healthy).1
  = Return (ConferenceInstance.mk 4 "aaai" (VStr "AAAI") 2024
              Scenario.location).
Proof. reflexivity. Qed.

(** An existing row keeps its [conference_name]: only the keyword arguments
    are assigned. *)
Example upsert_keeps_conference_name :
  (ConferenceInstanceRepository.upsert "aaai" "Renamed" 2023 Scenario.location
     Scenario.healthy).1
  = Return (ConferenceInstance.mk 2 "aaai" (VStr "AAAI") 2023
              Scenario.location).
Proof. vm_compute. reflexivity. Qed.

(** A keyword [conference_name] collides with the constructor's own when the
    row has to be created. *)
Example upsert_conference_name_twice :
  (ConferenceInstanceRepository.upsert "aaai" "AAAI" 2024
     {["conference_name" := VStr "AAAI-24"]} Scenario.healthy).1
  = Raise (TypeError
      "got multiple values for keyword argument 'conference_name'").
Proof. reflexivity. Qed.

(** ** The reads the claims leave out *)

Lemma get_all_conferences_ok s :
  next_fault s = None →
  (ConferenceInstanceRepository.get_all_conferences s).1
  = Return (order_by String.leb
              (distinct (Conference.name <$> conferences (store s)))).
Proof.
  intros Hok. unfold ConferenceInstanceRepository.get_all_conferences.
  rewrite bind_run. unfold all. by rewrite Hok.
Qed.

(** X1. When the engine answers, [get_all_conferences] returns exactly the
    names of the Conference table, each once, in strictly ascending order
    of the strings. *)
Theorem get_all_conferences_exact_sorted (s : session) :
  next_fault s = None →
  ∃ names,
    (ConferenceInstanceRepository.get_all_conferences s).1 = Return names
    ∧ (∀ n, n ∈ names ↔
         ∃ c, c ∈ conferences (store s) ∧ Conference.name c = n)
    ∧ StronglySorted (λ a b, String.ltb a b = true) names.
Proof.
  intros Hok. eexists. split; [by apply get_all_conferences_ok|]. split.
  - intros n. unfold distinct.
    rewrite elem_of_order_by, elem_of_remove_dups, list_elem_of_fmap.
    split; [intros (c & -> & Hc)|intros (c & Hc & <-)]; eauto.
  - apply order_by_string_strict, NoDup_remove_dups.
Qed.

Lemma get_all_conferences_exact_sorted_witness :
  ∃ names,
    (ConferenceInstanceRepository.get_all_conferences Scenario.healthy).1
      = Return names
    ∧ (∀ n, n ∈ names ↔
         ∃ c, c ∈ conferences (store Scenario.healthy)
              ∧ Conference.name c = n)
    ∧ StronglySorted (λ a b, String.ltb a b = true) names.
Proof. apply get_all_conferences_exact_sorted. reflexivity. Defined.

(** X2. When the engine answers, [get_sessions_by_instance] returns the
    sessions of that instance and no other, in the order of the table and
    as often as the table holds them. *)
Theorem get_sessions_by_instance_exact (s : session) (instance_id : Z) :
  next_fault s = None →
  ∃ found,
    (ConferenceInstanceRepository.get_sessions_by_instance instance_id s).1
      = Return found
    ∧ found `sublist_of` sessions (store s)
    ∧ (∀ x, x ∈ found ↔
         x ∈ sessions (store s) ∧ Session.instance_id x = instance_id)
    ∧ (∀ x, Session.instance_id x = instance_id →
         length (filter (x =.) found)
         = length (filter (x =.) (sessions (store s)))).
Proof.
  intros Hok.
  exists (filter (λ x, Session.instance_id x = instance_id)
            (sessions (store s))).
  split; [|split; [|split]].
  - unfold ConferenceInstanceRepository.get_sessions_by_instance,
      try_except. rewrite bind_run. unfold all. by rewrite Hok.
  - apply sublist_filter.
  - intros x. rewrite list_elem_of_filter. tauto.
  - intros x Hx. rewrite list_filter_filter. f_equal.
    apply list_filter_iff. intros y. split; [tauto|]. by intros <-.
Qed.

Lemma get_sessions_by_instance_exact_witness :
  ∃ found,
    (ConferenceInstanceRepository.get_sessions_by_instance 2
       Scenario.healthy).1 = Return found
    ∧ found `sublist_of` sessions (store Scenario.healthy)
    ∧ (∀ x, x ∈ found ↔
         x ∈ sessions (store Scenario.healthy) ∧ Session.instance_id x = 2)
    ∧ (∀ x, Session.instance_id x = 2 →
         length (filter (x =.) found)
         = length (filter (x =.) (sessions (store Scenario.healthy)))).
Proof. apply get_sessions_by_instance_exact. reflexivity. Defined.

Lemma head_filter_split {A} (P : A → Prop) `{!∀ x, Decision (P x)}
    (l : list A) x :
  head (filter P l) = Some x →
  P x ∧ ∃ before after, l = before ++ x :: after ∧ Forall (λ y, ¬ P y) before.
Proof.
  induction l as [|y l IH]; [done|]. rewrite filter_cons.
  destruct (decide (P y)) as [HP|HP].
  - intros [= ->]. split; [done|]. by exists [], l.
  - intros (HPx & before & after & -> & Hbefore)%IH. split; [done|].
    exists (y :: before), after. split; [done|]. by constructor.
Qed.

(** X3. When the engine answers, [get_instance_by_year_and_name] finds an
    instance exactly when one has that year and that [conference_name]; the
    instance it returns is the first such row of the table. *)
Theorem get_instance_by_year_and_name_first (s : session) (year : Z)
    (conference_name : string) :
  next_fault s = None →
  ∃ found,
    (ConferenceInstanceRepository.get_instance_by_year_and_name
       year conference_name s).1 = Return found
    ∧ (is_Some found ↔
         ∃ i, i ∈ instances (store s) ∧ named year conference_name i)
    ∧ (∀ i, found = Some i →
         named year conference_name i
         ∧ ∃ before after,
             instances (store s) = before ++ i :: after
             ∧ Forall (λ j, ¬ named year conference_name j) before).
Proof.
  intros Hok.
  exists (head (filter (named year conference_name) (instances (store s)))).
  split; [|split].
  - unfold ConferenceInstanceRepository.get_instance_by_year_and_name,
      try_except. rewrite bind_run. unfold first. by rewrite Hok.
  - split.
    + intros [i Hi]. exists i.
      apply head_Some_elem_of, list_elem_of_filter in Hi. tauto.
    + intros (i & Hi & Hnamed).
      by apply (head_filter_is_Some (named year conference_name) _ i).
  - intros i Hi. by apply (head_filter_split (named year conference_name)).
Qed.

Lemma get_instance_by_year_and_name_first_witness :
  ∃ found,
    (ConferenceInstanceRepository.get_instance_by_year_and_name
       2023 "AAAI" Scenario.healthy).1 = Return found
    ∧ (is_Some found ↔
         ∃ i, i ∈ instances (store Scenario.healthy) ∧ named 2023 "AAAI" i)
    ∧ (∀ i, found = Some i →
         named 2023 "AAAI" i
         ∧ ∃ before after,
             instances (store Scenario.healthy) = before ++ i :: after
             ∧ Forall (λ j, ¬ named 2023 "AAAI" j) before).
Proof. apply get_instance_by_year_and_name_first. reflexivity. Defined.

(** X4. The five reads without a [try] let the engine's error through:
    when the engine refuses the statement with [e], each of them raises
    that very [e]. *)
Theorem unguarded_reads_propagate (s : session) (e : exn)
    (conference : string) (year : Z) :
  next_fault s = Some e →
  (ConferenceInstanceRepository.get_all_conferences s).1 = Raise e
  ∧ (ConferenceInstanceRepository.get_all_years s).1 = Raise e
  ∧ (ConferenceInstanceRepository.get_conferences_by_year year s).1 = Raise e
  ∧ (ConferenceInstanceRepository.get_conference_years conference s).1
    = Raise e
  ∧ (ConferenceInstanceRepository.get_yearly_conference_stats year s).1
    = Raise e.
Proof.
  intros Hfault.
  unfold ConferenceInstanceRepository.get_all_conferences,
    ConferenceInstanceRepository.get_all_years,
    ConferenceInstanceRepository.get_conferences_by_year,
    ConferenceInstanceRepository.get_conference_years,
    ConferenceInstanceRepository.get_yearly_conference_stats.
  rewrite bind_run. unfold all. by rewrite Hfault.
Qed.

Lemma unguarded_reads_propagate_witness :
  (ConferenceInstanceRepository.get_all_conferences Scenario.broken).1
    = Raise (SQLAlchemyError "connection lost")
  ∧ (ConferenceInstanceRepository.get_all_years Scenario.broken).1
    = Raise (SQLAlchemyError "connection lost")
  ∧ (ConferenceInstanceRepository.get_conferences_by_year 2023
       Scenario.broken).1 = Raise (SQLAlchemyError "connection lost")
  ∧ (ConferenceInstanceRepository.get_conference_years "AAAI"
       Scenario.broken).1 = Raise (SQLAlchemyError "connection lost")
  ∧ (ConferenceInstanceRepository.get_yearly_conference_stats 2023
       Scenario.broken).1 = Raise (SQLAlchemyError "connection lost").
Proof. apply unguarded_reads_propagate. reflexivity. Defined.

(** X5. The three guarded reads print one line when the engine refuses the
    statement, their own prefix followed by [str(e)], and print nothing when
    it answers. *)
Theorem guarded_reads_log (s : session) (conference : string)
    (year : year_arg) (instance_id y : Z) (conference_name : string) :
  let logged prefix :=
    match next_fault s with
    | Some e => stdout s ++ [prefix +:+ str e]
    | None => stdout s
    end in
  stdout (ConferenceInstanceRepository.get_conference_stats
            conference year s).2
  = logged "Error in get_conference_stats: "
  ∧ stdout (ConferenceInstanceRepository.get_sessions_by_instance
              instance_id s).2
    = logged "Error getting sessions: "
  ∧ stdout (ConferenceInstanceRepository.get_instance_by_year_and_name
              y conference_name s).2
    = logged "Error getting conference instance: ".
Proof.
  unfold ConferenceInstanceRepository.get_conference_stats,
    ConferenceInstanceRepository.get_sessions_by_instance,
    ConferenceInstanceRepository.get_instance_by_year_and_name,
    try_except, mbind, M_bind, all, first.
  by destruct (next_fault s).
Qed.

(** ** More on [upsert] *)

(** No assignment reaches the foreign key or the year. *)
Lemma setattrs_pair inst kwargs :
  ConferenceInstance.conference_id (setattrs inst kwargs)
  = ConferenceInstance.conference_id inst
  ∧ ConferenceInstance.year (setattrs inst kwargs)
    = ConferenceInstance.year inst.
Proof.
  unfold setattrs.
  apply (map_fold_weak_ind (λ r _,
    ConferenceInstance.conference_id r = ConferenceInstance.conference_id inst
    ∧ ConferenceInstance.year r = ConferenceInstance.year inst)); [done|].
  intros k v m [pk cid cname y attrs] _ [Hcid Hyear]. unfold setattr.
  repeat case_decide; try done. by destruct v.
Qed.

Lemma ret_run {A} (a : A) s : (mret a : M A) s = (Return a, s).
Proof. reflexivity. Qed.

#[local] Ltac raised := left; eexists; split; reflexivity.

(** The three ways a call of [upsert] ends: it raises and leaves the rows;
    it assigns the keyword arguments to the rows of the identity of the first
    instance of the pair; or, the pair having no instance, it appends one. *)
Lemma upsert_cases conference_id name year kwargs s :
  let result :=
    ConferenceInstanceRepository.upsert conference_id name year kwargs s in
  (∃ e, result.1 = Raise e ∧ store result.2 = store s)
  ∨ (∃ existing,
       head (instances_for conference_id year (store s)) = Some existing
       ∧ (∃ c, c ∈ conferences (store s)
               ∧ Conference.conference_id c = conference_id)
       ∧ result.1 = Return (setattrs existing kwargs)
       ∧ store result.2
         = with_instances (store s)
             ((λ r, if decide (ConferenceInstance.instance_id r
                               = ConferenceInstance.instance_id existing)
                    then setattrs r kwargs else r) <$> instances (store s)))
  ∨ (∃ pk,
       head (instances_for conference_id year (store s)) = None
       ∧ (∃ c, c ∈ conferences (store s)
               ∧ Conference.conference_id c = conference_id)
       ∧ kwargs !! "conference_name" = None
       ∧ result.1
         = Return (ConferenceInstance.mk pk conference_id (VStr name) year
                     (delete "instance_id" kwargs))
       ∧ store result.2
         = with_instances (store s)
             (instances (store s)
              ++ [ConferenceInstance.mk pk conference_id (VStr name) year
                    (delete "instance_id" kwargs)])).
Proof.
  intros result. subst result.
  unfold ConferenceInstanceRepository.upsert, bind_arguments.
  rewrite bind_run. case_decide; [raised|].
  rewrite ret_run. cbv beta iota.
  rewrite bind_run. unfold first.
  destruct (next_fault s); [raised|]. cbv beta iota.
  destruct (head (filter _ (conferences (store s)))) as [c|] eqn:Hc;
    [|raised].
  assert (∃ c, c ∈ conferences (store s)
               ∧ Conference.conference_id c = conference_id) as Hex.
  { exists c. apply head_Some_elem_of, list_elem_of_filter in Hc. tauto. }
  rewrite bind_run.
  destruct (next_fault (consume_fault s)); [raised|]. cbv beta iota.
  change (store (consume_fault s)) with (store s).
  destruct (head (instances_for conference_id year (store s)))
    as [existing|] eqn:Hhead.
  - rewrite bind_run, ret_run. cbv beta iota. unfold commit.
    destruct (next_fault (consume_fault (consume_fault s))); [raised|].
    change (store (consume_fault (consume_fault s))) with (store s).
    unfold flush_dirty.
    destruct (match kwargs !! "instance_id" with
              | Some (VInt _) => _ | Some _ => _ | None => _ end);
      [|raised].
    right. left. exists existing. done.
  - rewrite !bind_run. unfold construct.
    case_decide as Hname; [raised|].
    rewrite !ret_run. cbv beta iota. unfold commit.
    destruct (next_fault (consume_fault (consume_fault s))); [raised|].
    change (store (consume_fault (consume_fault s))) with (store s).
    assert (kwargs !! "conference_name" = None) as Hname'.
    { destruct (kwargs !! "conference_name"); [|done].
      destruct Hname. by eexists. }
    unfold flush_new.
    destruct (kwargs !! "instance_id") as [[|z|]|]; cbv beta iota zeta;
      try raised; try (right; right; by eexists).
    case_decide; [raised|right; right; by eexists].
Qed.

Lemma head_None_nil {A} (l : list A) : head l = None → l = [].
Proof. by destruct l. Qed.

(** X6. Whenever [upsert] returns, the instance it returns is a row of the
    table, it has the requested [conference_id] and [year], and the
    Conference of that [conference_id] exists. *)
Theorem upsert_returns_stored (s : session) (conference_id name : string)
    (year : Z) (kwargs : gmap string value) (inst : ConferenceInstance.t) :
  (ConferenceInstanceRepository.upsert conference_id name year kwargs s).1
    = Return inst →
  inst ∈ instances (store
           (ConferenceInstanceRepository.upsert
              conference_id name year kwargs s).2)
  ∧ ConferenceInstance.conference_id inst = conference_id
  ∧ ConferenceInstance.year inst = year
  ∧ ∃ c, c ∈ conferences (store s)
         ∧ Conference.conference_id c = conference_id.
Proof.
  intros Hret.
  destruct (upsert_cases conference_id name year kwargs s)
    as [(e & He & _)|[(existing & Hhead & Hc & Hr & ->)
                     |(pk & Hhead & Hc & _ & Hr & ->)]];
    rewrite Hret in *; [done| |].
  - injection Hr as ->.
    apply head_Some_elem_of, list_elem_of_filter in Hhead
      as [[Hcid Hyear] Hin].
    destruct (setattrs_pair existing kwargs) as [-> ->].
    repeat split; try done. simpl.
    apply list_elem_of_fmap. exists existing. by rewrite decide_True.
  - injection Hr as ->. repeat split; try done. simpl.
    apply elem_of_app. right. by left.
Qed.

Lemma upsert_returns_stored_witness :
  Scenario.aaai_2022
    ∈ instances (store
        (ConferenceInstanceRepository.upsert "aaai" "AAAI" 2022 ∅
           Scenario.healthy).2)
  ∧ ConferenceInstance.conference_id Scenario.aaai_2022 = "aaai"
  ∧ ConferenceInstance.year Scenario.aaai_2022 = 2022
  ∧ ∃ c, c ∈ conferences (store Scenario.healthy)
         ∧ Conference.conference_id c = "aaai".
Proof.
  apply (upsert_returns_stored Scenario.healthy "aaai" "AAAI" 2022 ∅).
  vm_compute. reflexivity.
Defined.

(** X7. Whatever the arguments and the engine, [upsert] writes to the
    ConferenceInstance table only; it removes no row of it and adds at most
    one. *)
Theorem upsert_touches_instances_only (s : session)
    (conference_id name : string) (year : Z) (kwargs : gmap string value) :
  let db := store s in
  let db' := store (ConferenceInstanceRepository.upsert
                      conference_id name year kwargs s).2 in
  conferences db' = conferences db
  ∧ papers db' = papers db
  ∧ sessions db' = sessions db
  ∧ (length (instances db') = length (instances db)
     ∨ length (instances db') = S (length (instances db))).
Proof.
  intros db db'. subst db db'.
  destruct (upsert_cases conference_id name year kwargs s)
    as [(e & _ & ->)|[(existing & _ & _ & _ & ->)|(pk & _ & _ & _ & _ & ->)]].
  - repeat split; try done. by left.
  - repeat split; try done. left. simpl. apply length_fmap.
  - repeat split; try done. right. simpl. rewrite length_app. simpl. lia.
Qed.

(** X8. [upsert] keeps the uniqueness invariant, whatever the arguments
    and the engine: when no (conference_id, year) pair has two instances
    before the call, none has two after it. *)
Theorem upsert_keeps_unique_pairs (s : session) (conference_id name : string)
    (year : Z) (kwargs : gmap string value) :
  unique_pairs (store s) →
  unique_pairs (store (ConferenceInstanceRepository.upsert
                         conference_id name year kwargs s).2).
Proof.
  intros Huniq cid' y'. specialize (Huniq cid' y').
  destruct (upsert_cases conference_id name year kwargs s)
    as [(e & _ & ->)|[(existing & _ & _ & _ & ->)
                     |(pk & Hhead & _ & _ & _ & ->)]]; [done| |].
  - unfold instances_for in *. simpl. rewrite filter_fmap_stable.
    + by rewrite length_fmap.
    + intros r. case_decide; [|done].
      by destruct (setattrs_pair r kwargs) as [-> ->].
  - apply head_None_nil in Hhead.
    unfold instances_for in *. simpl. rewrite filter_app, length_app.
    rewrite filter_cons. case_decide as Hpair; simpl; [|lia].
    simpl in Hpair. destruct Hpair as [<- <-]. rewrite Hhead. simpl. lia.
Qed.

Lemma upsert_keeps_unique_pairs_witness :
  unique_pairs (store (ConferenceInstanceRepository.upsert
                         "aaai" "AAAI" 2024 Scenario.location
                         Scenario.healthy).2).
Proof.
  apply upsert_keeps_unique_pairs. intros cid y.
  unfold instances_for, Scenario.healthy, Scenario.db. simpl.
  rewrite !filter_cons, filter_nil.
  repeat case_decide; simpl in *; try lia;
    repeat match goal with H : _ ∧ _ |- _ => destruct H end; congruence.
Defined.

(** X9. When the pair already has an instance, the [name] argument plays no
    part: two calls that differ in it alone end alike, in result and in
    session. An existing instance is never renamed from it. *)
Theorem upsert_ignores_name_of_existing (s : session)
    (conference_id name name' : string) (year : Z)
    (kwargs : gmap string value) :
  instances_for conference_id year (store s) ≠ [] →
  ConferenceInstanceRepository.upsert conference_id name year kwargs s
  = ConferenceInstanceRepository.upsert conference_id name' year kwargs s.
Proof.
  intros Hsome. unfold ConferenceInstanceRepository.upsert, bind_arguments.
  rewrite !bind_run. case_decide; [done|].
  rewrite ret_run. cbv beta iota. rewrite !bind_run. unfold first.
  destruct (next_fault s); [done|]. cbv beta iota.
  destruct (head (filter _ (conferences (store s)))); [|done].
  rewrite !bind_run.
  destruct (next_fault (consume_fault s)); [done|]. cbv beta iota.
  change (store (consume_fault s)) with (store s).
  destruct (head (instances_for conference_id year (store s))) eqn:Hhead;
    [done|].
  by apply head_None_nil in Hhead.
Qed.

Lemma upsert_ignores_name_of_existing_witness :
  ConferenceInstanceRepository.upsert "aaai" "AAAI" 2023 Scenario.location
    Scenario.healthy
  = ConferenceInstanceRepository.upsert "aaai" "Renamed" 2023
      Scenario.location Scenario.healthy.
Proof.
  apply upsert_ignores_name_of_existing. vm_compute. discriminate.
Defined.

(** X10. A keyword [conference_name] cannot be given when the row has to be
    created: with the Conference present, no instance of the pair and the
    engine answering, [upsert] raises the [TypeError] of the doubled keyword
    and writes nothing. *)
Theorem upsert_conference_name_on_create (s : session)
    (conference_id name : string) (year : Z) (kwargs : gmap string value) :
  no_faults s →
  Forall (λ k, kwargs !! k = None) parameter_names →
  (∃ c, c ∈ conferences (store s)
        ∧ Conference.conference_id c = conference_id) →
  instances_for conference_id year (store s) = [] →
  is_Some (kwargs !! "conference_name") →
  (ConferenceInstanceRepository.upsert conference_id name year kwargs s).1
    = Raise (TypeError
        "got multiple values for keyword argument 'conference_name'")
  ∧ unchanged s
      (ConferenceInstanceRepository.upsert
         conference_id name year kwargs s).2.
Proof.
  intros Hs Hkw Hc Hnone Hname.
  rewrite upsert_found, Hnone by done. simpl head.
  rewrite !bind_run. unfold construct. by rewrite decide_True.
Qed.

Lemma upsert_conference_name_on_create_witness :
  (ConferenceInstanceRepository.upsert "aaai" "AAAI" 2024
     {["conference_name" := VStr "AAAI-24"]} Scenario.healthy).1
    = Raise (TypeError
        "got multiple values for keyword argument 'conference_name'")
  ∧ unchanged Scenario.healthy
      (ConferenceInstanceRepository.upsert "aaai" "AAAI" 2024
         {["conference_name" := VStr "AAAI-24"]} Scenario.healthy).2.
Proof.
  apply upsert_conference_name_on_create.
  - constructor.
  - apply (bool_decide_unpack _). vm_compute. reflexivity.
  - exists (Conference.mk "aaai" "AAAI"). split; [|reflexivity].
    apply (bool_decide_unpack _). vm_compute. reflexivity.
  - vm_compute. reflexivity.
  - vm_compute. eexists. reflexivity.
Defined.

(** ** How the reads agree with one another and with [upsert] *)

Lemma all_returns {A} (q : database → list A) s l :
  (all q s).1 = Return l → l = q (store s).
Proof. unfold all. destruct (next_fault s); [done|]. by intros [= <-]. Qed.

Lemma elem_of_get_all_years s years y :
  (ConferenceInstanceRepository.get_all_years s).1 = Return years →
  y ∈ years ↔ ∃ i, i ∈ instances (store s) ∧ ConferenceInstance.year i = y.
Proof.
  intros ->%all_returns. unfold distinct.
  rewrite elem_of_order_by, elem_of_remove_dups, list_elem_of_fmap.
  split; [intros (i & -> & Hi)|intros (i & Hi & <-)]; eauto.
Qed.

Lemma elem_of_get_conference_years s conference years y :
  (ConferenceInstanceRepository.get_conference_years conference s).1
    = Return years →
  y ∈ years ↔
    ∃ i, i ∈ instances (store s) ∧ instance_of (store s) conference i
         ∧ ConferenceInstance.year i = y.
Proof.
  intros ->%all_returns. unfold distinct.
  rewrite elem_of_order_by, elem_of_remove_dups, list_elem_of_fmap. split.
  - intros ([i c] & -> & [Hname Hin]%list_elem_of_filter).
    apply elem_of_instance_join_conference in Hin as (Hc & Hi & Heq).
    exists i. split; [done|]. split; [|done].
    apply instance_of_spec. by exists c.
  - intros (i & Hi & (c & Hc & Heq & Hname)%instance_of_spec & <-).
    exists (i, c). split; [done|]. apply list_elem_of_filter. split; [done|].
    by apply elem_of_instance_join_conference.
Qed.

Lemma elem_of_get_conferences_by_year s year names n :
  (ConferenceInstanceRepository.get_conferences_by_year year s).1
    = Return names →
  n ∈ names ↔
    ∃ i, i ∈ instances (store s) ∧ instance_of (store s) n i
         ∧ ConferenceInstance.year i = year.
Proof.
  intros ->%all_returns. unfold distinct.
  rewrite elem_of_order_by, elem_of_remove_dups, list_elem_of_fmap. split.
  - intros ([c i] & -> & [Hyear Hin]%list_elem_of_filter).
    apply elem_of_conference_join_instance in Hin as (Hc & Hi & Heq).
    exists i. split; [done|]. split; [|done].
    apply instance_of_spec. by exists c.
  - intros (i & Hi & (c & Hc & Heq & Hname)%instance_of_spec & Hyear).
    exists (c, i). split; [done|]. apply list_elem_of_filter. split; [done|].
    by apply elem_of_conference_join_instance.
Qed.

Lemma elem_of_get_all_conferences s names n :
  (ConferenceInstanceRepository.get_all_conferences s).1 = Return names →
  n ∈ names ↔ ∃ c, c ∈ conferences (store s) ∧ Conference.name c = n.
Proof.
  unfold ConferenceInstanceRepository.get_all_conferences.
  rewrite bind_run. unfold all. destruct (next_fault s); [done|].
  intros [= <-]. unfold distinct.
  rewrite elem_of_order_by, elem_of_remove_dups, list_elem_of_fmap.
  split; [intros (c & -> & Hc)|intros (c & Hc & <-)]; eauto.
Qed.

Lemma elem_of_get_yearly_conference_stats s year stats n :
  (ConferenceInstanceRepository.get_yearly_conference_stats year s).1
    = Return stats →
  n ∈ stats.*1 ↔
    ∃ i, i ∈ instances (store s) ∧ instance_of (store s) n i
         ∧ ConferenceInstance.year i = year.
Proof.
  intros ->%all_returns. rewrite group_count_keys. unfold distinct.
  rewrite elem_of_remove_dups, list_elem_of_fmap. split.
  - intros (x & -> & [Hyear Hx]%list_elem_of_filter).
    apply elem_of_outerjoin_paper in Hx. destruct x as [[c i] p]. simpl in *.
    apply elem_of_conference_join_instance in Hx as (Hc & Hi & Hid).
    exists i. split; [done|]. split; [|done].
    apply instance_of_spec. by exists c.
  - intros (i & Hi & (c & Hc & Hid & Hname)%instance_of_spec & Hyear).
    destruct (outerjoin_paper_keeps (store s)
                (conference_join_instance (store s)) (c, i))
      as (x & Hx & Hx1); [by apply elem_of_conference_join_instance|].
    exists x. rewrite Hx1. split; [done|].
    apply list_elem_of_filter. by rewrite Hx1.
Qed.

(** X11. The two dropdown queries are dual: a conference name is among
    [get_conferences_by_year year] exactly when the year is among
    [get_conference_years] of that name. *)
Theorem conferences_by_year_dual_to_conference_years (s : session)
    (conference : string) (year : Z) (names : list string) (years : list Z) :
  (ConferenceInstanceRepository.get_conferences_by_year year s).1
    = Return names →
  (ConferenceInstanceRepository.get_conference_years conference s).1
    = Return years →
  conference ∈ names ↔ year ∈ years.
Proof.
  intros Hnames Hyears.
  rewrite (elem_of_get_conferences_by_year s year names conference Hnames).
  by rewrite (elem_of_get_conference_years s conference years year Hyears).
Qed.

Lemma conferences_by_year_dual_to_conference_years_witness :
  "AAAI" ∈ ["AAAI"; "NeurIPS"] ↔ 2023 ∈ [2023; 2022].
Proof.
  apply (conferences_by_year_dual_to_conference_years Scenario.healthy
           "AAAI" 2023); reflexivity.
Defined.

(** X12. The reads agree on one database: every year that
    [get_conference_years] lists is among [get_all_years], every name that
    [get_conferences_by_year] lists is among [get_all_conferences], and
    [get_yearly_conference_stats] has a row for exactly the names that
    [get_conferences_by_year] lists for that year, each name once. *)
Theorem reads_agree (s : session) (conference : string) (year : Z)
    (all_years years : list Z) (all_names names : list string)
    (stats : list (string * nat)) :
  (ConferenceInstanceRepository.get_all_years s).1 = Return all_years →
  (ConferenceInstanceRepository.get_conference_years conference s).1
    = Return years →
  (ConferenceInstanceRepository.get_all_conferences s).1 = Return all_names →
  (ConferenceInstanceRepository.get_conferences_by_year year s).1
    = Return names →
  (ConferenceInstanceRepository.get_yearly_conference_stats year s).1
    = Return stats →
  years ⊆ all_years
  ∧ names ⊆ all_names
  ∧ (∀ n, n ∈ stats.*1 ↔ n ∈ names)
  ∧ NoDup stats.*1.
Proof.
  intros Hall Hyears Hnames_all Hnames Hstats. split; [|split; [|split]].
  - intros y Hy.
    apply (elem_of_get_conference_years s conference years y Hyears) in Hy
      as (i & Hi & _ & Hy).
    apply (elem_of_get_all_years s all_years y Hall). eauto.
  - intros n Hn.
    apply (elem_of_get_conferences_by_year s year names n Hnames) in Hn
      as (i & _ & (c & Hc & _ & Hname)%instance_of_spec & _).
    apply (elem_of_get_all_conferences s all_names n Hnames_all). eauto.
  - intros n.
    rewrite (elem_of_get_yearly_conference_stats s year stats n Hstats).
    by rewrite (elem_of_get_conferences_by_year s year names n Hnames).
  - apply all_returns in Hstats as ->. rewrite group_count_keys.
    apply NoDup_remove_dups.
Qed.

Lemma reads_agree_witness :
  [2023; 2022] ⊆ [2023; 2022]
  ∧ ["AAAI"; "NeurIPS"] ⊆ ["AAAI"; "NeurIPS"]
  ∧ (∀ n, n ∈ [("NeurIPS", 0%nat); ("AAAI", 0%nat)].*1 ↔
          n ∈ ["AAAI"; "NeurIPS"])
  ∧ NoDup [("NeurIPS", 0%nat); ("AAAI", 0%nat)].*1.
Proof.
  apply (reads_agree Scenario.healthy "AAAI" 2023); reflexivity.
Defined.

(** X13. Without a year, [get_conference_stats] covers the years that
    [get_conference_years] lists for the conference, and no other. *)
Theorem conference_stats_years_are_conference_years (s : session)
    (conference : string) (years : list Z) :
  (ConferenceInstanceRepository.get_conference_years conference s).1
    = Return years →
  ∃ stats,
    (ConferenceInstanceRepository.get_conference_stats
       conference YNone s).1 = Return stats
    ∧ ∀ y, y ∈ ConferenceInstance.year <$> stats.*1 ↔ y ∈ years.
Proof.
  intros Hyears. eexists. split.
  - apply get_conference_stats_ok.
    unfold ConferenceInstanceRepository.get_conference_years, all in Hyears.
    by destruct (next_fault s).
  - intros y.
    rewrite (elem_of_get_conference_years s conference years y Hyears).
    rewrite list_elem_of_fmap. split.
    + intros (i & -> & (Hi & Hof & _)%conference_stats_instances). eauto.
    + intros (i & Hi & Hof & <-). exists i. split; [done|].
      by apply conference_stats_instances.
Qed.

Lemma conference_stats_years_are_conference_years_witness :
  ∃ stats,
    (ConferenceInstanceRepository.get_conference_stats
       "AAAI" YNone Scenario.healthy).1 = Return stats
    ∧ ∀ y, y ∈ ConferenceInstance.year <$> stats.*1 ↔ y ∈ [2023; 2022].
Proof.
  apply conference_stats_years_are_conference_years. reflexivity.
Defined.

Lemma upsert_leaves_row conference_id name year kwargs s inst :
  (ConferenceInstanceRepository.upsert conference_id name year kwargs s).1
    = Return inst →
  let db' := store (ConferenceInstanceRepository.upsert
                      conference_id name year kwargs s).2 in
  inst ∈ instances db'
  ∧ ConferenceInstance.conference_id inst = conference_id
  ∧ ConferenceInstance.year inst = year
  ∧ conferences db' = conferences (store s).
Proof.
  intros Hret db'. subst db'.
  destruct (upsert_cases conference_id name year kwargs s)
    as [(e & He & _)|[(existing & Hhead & _ & Hr & ->)
                     |(pk & _ & _ & _ & Hr & ->)]];
    rewrite Hret in *; [done| |]; injection Hr as ->.
  - apply head_Some_elem_of, list_elem_of_filter in Hhead
      as [[Hcid Hyear] Hin].
    destruct (setattrs_pair existing kwargs) as [-> ->].
    repeat split; try done. simpl.
    apply list_elem_of_fmap. exists existing. by rewrite decide_True.
  - repeat split; try done. simpl. apply elem_of_app. right. by left.
Qed.

(** X14. What [upsert] wrote shows in the reads: after a call that
    returned, the year is among [get_all_years] and among
    [get_conference_years] of the conference's name, and that name is among
    [get_conferences_by_year] of the year. *)
Theorem upsert_shows_in_reads (s : session) (conference_id name : string)
    (year : Z) (kwargs : gmap string value) (inst : ConferenceInstance.t)
    (c : Conference.t) (all_years years : list Z) (names : list string) :
  let after :=
    (ConferenceInstanceRepository.upsert
       conference_id name year kwargs s).2 in
  (ConferenceInstanceRepository.upsert conference_id name year kwargs s).1
    = Return inst →
  c ∈ conferences (store s) →
  Conference.conference_id c = conference_id →
  (ConferenceInstanceRepository.get_all_years after).1 = Return all_years →
  (ConferenceInstanceRepository.get_conference_years
     (Conference.name c) after).1 = Return years →
  (ConferenceInstanceRepository.get_conferences_by_year year after).1
    = Return names →
  year ∈ all_years ∧ year ∈ years ∧ Conference.name c ∈ names.
Proof.
  intros after Hret Hc Hcid Hall Hyears Hnames. subst after.
  destruct (upsert_leaves_row _ _ _ _ _ _ Hret) as (Hin & Hi & Hy & Hconf).
  assert (instance_of
            (store (ConferenceInstanceRepository.upsert
                      conference_id name year kwargs s).2)
            (Conference.name c) inst) as Hof.
  { apply instance_of_spec. exists c. rewrite Hconf. by rewrite Hi. }
  split; [|split].
  - apply (elem_of_get_all_years _ _ _ Hall). eauto.
  - apply (elem_of_get_conference_years _ _ _ _ Hyears). eauto.
  - apply (elem_of_get_conferences_by_year _ _ _ _ Hnames). eauto.
Qed.

Lemma upsert_shows_in_reads_witness :
  2024 ∈ [2024; 2023; 2022] ∧ 2024 ∈ [2024; 2023; 2022]
  ∧ Conference.name (Conference.mk "aaai" "AAAI") ∈ ["AAAI"].
Proof.
  apply (upsert_shows_in_reads Scenario.healthy "aaai" "AAAI" 2024
           Scenario.location
           (ConferenceInstance.mk 4 "aaai" (VStr "AAAI") 2024
              Scenario.location)
           (Conference.mk "aaai" "AAAI")).
  - reflexivity.
  - apply (bool_decide_unpack _). vm_compute. reflexivity.
  - reflexivity.
  - vm_compute. reflexivity.
  - vm_compute. reflexivity.
  - vm_compute. reflexivity.
Defined.

(** X15. A created instance is found again by year and name: with the
    Conference present, no instance of the pair, extra fields only and the
    engine answering, [get_instance_by_year_and_name year name] after the
    [upsert] returns an instance of that year and name, and it is the
    created one when no row had that year and name before. *)
Theorem upsert_then_lookup (s : session) (conference_id name : string)
    (year : Z) (kwargs : gmap string value) :
  no_faults s →
  Forall (λ k, kwargs !! k = None)
    ("conference_name" :: "instance_id" :: parameter_names) →
  (∃ c, c ∈ conferences (store s)
        ∧ Conference.conference_id c = conference_id) →
  instances_for conference_id year (store s) = [] →
  let created :=
    ConferenceInstanceRepository.upsert conference_id name year kwargs s in
  ∃ row found,
    created.1 = Return row
    ∧ (ConferenceInstanceRepository.get_instance_by_year_and_name
         year name created.2).1 = Return (Some found)
    ∧ named year name found
    ∧ ((∀ i, i ∈ instances (store s) → ¬ named year name i) →
       found = row).
Proof.
  intros Hs Hkw Hc Hnone created. subst created.
  rewrite upsert_new by (done || by rewrite Hnone).
  set (new := ConferenceInstance.mk _ _ _ _ _).
  assert (named year name new) as Hnew by done.
  unfold ConferenceInstanceRepository.get_instance_by_year_and_name,
    try_except.
  rewrite bind_run, first_ok.
  2: { apply no_faults_next. unfold no_faults. simpl.
       by do 3 apply Forall_tail. }
  simpl. rewrite filter_app, filter_cons_True by done.
  destruct (filter _ (instances (store s)))
    as [|first_match rest] eqn:Hfilter.
  - exists new, new. repeat split; done.
  - exists new, first_match. split; [done|]. split; [done|].
    assert (first_match ∈ first_match :: rest) as Hmatch by left.
    rewrite <-Hfilter in Hmatch.
    apply list_elem_of_filter in Hmatch as [Hnamed Hin].
    split; [done|]. intros Hnever. by destruct (Hnever first_match).
Qed.

Lemma upsert_then_lookup_witness :
  let created :=
    ConferenceInstanceRepository.upsert "aaai" "AAAI" 2024 Scenario.location
      Scenario.healthy in
  ∃ row found,
    created.1 = Return row
    ∧ (ConferenceInstanceRepository.get_instance_by_year_and_name
         2024 "AAAI" created.2).1 = Return (Some found)
    ∧ named 2024 "AAAI" found
    ∧ ((∀ i, i ∈ instances (store Scenario.healthy) →
             ¬ named 2024 "AAAI" i) →
       found = row).
Proof.
  apply (upsert_then_lookup Scenario.healthy "aaai" "AAAI" 2024
           Scenario.location).
  - constructor.
  - apply (bool_decide_unpack _). vm_compute. reflexivity.
  - exists (Conference.mk "aaai" "AAAI"). split; [|reflexivity].
    apply (bool_decide_unpack _). vm_compute. reflexivity.
  - vm_compute. reflexivity.
Defined.

(** ** Paper counts per conference name *)

Section sums.
Context {A : Type}.
Implicit Types (f g : A → nat) (l : list A).

Lemma sum_list_with_ext f g l :
  (∀ x, x ∈ l → f x = g x) → sum_list_with f l = sum_list_with g l.
Proof.
  induction l as [|x l IH]; intros Hfg; [done|]. simpl.
  rewrite Hfg, IH; [done| |left]. intros y Hy. apply Hfg. by right.
Qed.

Lemma sum_list_with_add f g l :
  sum_list_with (λ x, f x + g x)%nat l
  = (sum_list_with f l + sum_list_with g l)%nat.
Proof. induction l as [|x l IH]; simpl; lia. Qed.

Lemma sum_list_with_zero l : sum_list_with (λ _, 0%nat) l = 0%nat.
Proof. induction l as [|x l IH]; simpl; lia. Qed.

Lemma sum_list_with_filter (P : A → Prop) `{!∀ x, Decision (P x)} g l :
  sum_list_with (λ x, if decide (P x) then g x else 0%nat) l
  = sum_list_with g (filter P l).
Proof.
  induction l as [|x l IH]; [done|]. rewrite filter_cons. simpl.
  case_decide; simpl; lia.
Qed.

Lemma length_bind_sum {B} (h : A → list B) l :
  length (l ≫= h) = sum_list_with (λ x, length (h x)) l.
Proof.
  induction l as [|x l IH]; [done|].
  rewrite bind_cons, length_app, IH. done.
Qed.
End sums.

(** Counting the rows of a nested loop column by column. *)
Lemma length_bind_swap {A B C} (h : A → B → list C)
    (la : list A) (lb : list B) :
  length (la ≫= λ a, lb ≫= h a)
  = sum_list_with (λ b, length (la ≫= λ a, h a b)) lb.
Proof.
  induction la as [|a la IH].
  - simpl. by rewrite sum_list_with_zero.
  - rewrite bind_cons, length_app, IH, length_bind_sum.
    rewrite <-sum_list_with_add. apply sum_list_with_ext.
    intros b _. by rewrite bind_cons, length_app.
Qed.

(** With conference identities unique, the group of a name holds one row
    for each paper of each instance, in the year, of a conference of that
    name. *)
Lemma yearly_group_size db year n :
  NoDup (Conference.conference_id <$> conferences db) →
  length
    (filter (λ r, Conference.name r.1.1 = n
                  ∧ bool_decide (is_Some r.2) = true)
       (filter (λ r, ConferenceInstance.year r.1.2 = year)
          (outerjoin_paper db (conference_join_instance db))))
  = sum_list_with (λ i, length (papers_of db i))
      (filter (λ i, instance_of db n i ∧ ConferenceInstance.year i = year)
         (instances db)).
Proof.
  intros Hcs. rewrite list_filter_filter, outerjoin_paper_eq.
  unfold conference_join_instance.
  rewrite list_bind_assoc, filter_bind.
  erewrite list_bind_ext; [| |done].
  2: { intros c. rewrite list_bind_assoc, filter_bind. reflexivity. }
  rewrite length_bind_swap, <-sum_list_with_filter.
  apply sum_list_with_ext. intros i Hi. case_decide as Hmatch.
  - destruct Hmatch as [(c0 & Hc0 & Hid & Hname)%instance_of_spec Hyear].
    rewrite (bind_only c0); [|by eapply NoDup_fmap_1|done|].
    + rewrite decide_True by done. rewrite bind_cons. simpl.
      rewrite app_nil_r.
      etrans; [|apply (expand_count db (c0, i)
        (λ r, Conference.name r.1 = n
              ∧ ConferenceInstance.year r.2 = year)); done].
      f_equal. apply list_filter_iff. intros x. simpl. tauto.
    + intros c Hc Hne. case_decide as Hcid; [|done].
      destruct Hne. eapply NoDup_fmap_eq; [done..|congruence].
  - rewrite bind_all_nil; [done|]. intros c Hc.
    case_decide as Hcid; [|done].
    rewrite bind_cons. simpl. rewrite app_nil_r.
    apply filter_none. intros x Hx%elem_of_expand [[Hname _] Hyear].
    rewrite Hx in Hname, Hyear. simpl in *. apply Hmatch. split; [|done].
    apply instance_of_spec. by exists c.
Qed.

(** X16. With conference identities unique, [get_yearly_conference_stats]
    returns one pair for each name of a conference with an instance in that
    year, and the count of a pair is the total number of Paper rows of the
    instances, in that year, of the conferences of that name. *)
Theorem get_yearly_conference_stats_counts (s : session) (year : Z)
    (stats : list (string * nat)) :
  NoDup (Conference.conference_id <$> conferences (store s)) →
  (ConferenceInstanceRepository.get_yearly_conference_stats year s).1
    = Return stats →
  (∀ n, n ∈ stats.*1 ↔
        ∃ i, i ∈ instances (store s) ∧ instance_of (store s) n i
             ∧ ConferenceInstance.year i = year)
  ∧ NoDup stats.*1
  ∧ Forall
      (λ p, p.2 =
            sum_list_with (λ i, length (papers_of (store s) i))
              (filter (λ i, instance_of (store s) p.1 i
                            ∧ ConferenceInstance.year i = year)
                 (instances (store s))))
      stats.
Proof.
  intros Hcs Hstats. split; [|split].
  - intros n. by apply elem_of_get_yearly_conference_stats.
  - apply all_returns in Hstats as ->. rewrite group_count_keys.
    apply NoDup_remove_dups.
  - apply all_returns in Hstats as ->.
    apply Forall_forall. intros [n k] Hin. simpl.
    apply elem_of_group_count in Hin as [_ ->].
    by apply yearly_group_size.
Qed.

Lemma get_yearly_conference_stats_counts_witness :
  (∀ n, n ∈ [("AAAI", 5%nat)].*1 ↔
        ∃ i, i ∈ instances (store Scenario.healthy)
             ∧ instance_of (store Scenario.healthy) n i
             ∧ ConferenceInstance.year i = 2022)
  ∧ NoDup [("AAAI", 5%nat)].*1
  ∧ Forall
      (λ p, p.2 =
            sum_list_with
              (λ i, length (papers_of (store Scenario.healthy) i))
              (filter (λ i, instance_of (store Scenario.healthy) p.1 i
                            ∧ ConferenceInstance.year i = 2022)
                 (instances (store Scenario.healthy))))
      [("AAAI", 5%nat)].
Proof.
  apply (get_yearly_conference_stats_counts Scenario.healthy 2022).
  - apply (bool_decide_unpack _). vm_compute. reflexivity.
  - reflexivity.
Defined.

(** The rows of [get_conference_stats] over a database with unique
    identities: the instances that match, each with its number of papers. *)
Lemma conference_stats_rows db conference year :
  NoDup (Conference.conference_id <$> conferences db) →
  NoDup (instance_ids db) →
  let stats :=
    ConferenceInstanceRepository.conference_stats_query conference year db in
  stats.*1 ≡ₚ filter (λ i, instance_of db conference i
                           ∧ passes_year year i = true) (instances db)
  ∧ Forall (λ p, p.2 = length (papers_of db p.1)) stats.
Proof.
  intros Hcs Hids stats. subst stats. apply NoDup_fmap_1 in Hids as His.
  split.
  - apply NoDup_Permutation.
    + rewrite conference_stats_query_eq, order_by_Permutation,
        group_count_keys. apply NoDup_remove_dups.
    + by apply NoDup_filter.
    + intros i. rewrite conference_stats_instances, list_elem_of_filter.
      tauto.
  - apply Forall_forall. intros [i n] Hin. simpl.
    assert (i ∈ (ConferenceInstanceRepository.conference_stats_query
                   conference year db).*1) as Hi.
    { apply list_elem_of_fmap. by exists (i, n). }
    apply conference_stats_instances in Hi as (Hi & Hof & Hyear).
    rewrite conference_stats_query_eq, elem_of_order_by in Hin.
    apply elem_of_group_count in Hin as [_ ->].
    by apply stats_group_size.
Qed.

Lemma sum_list_counts {A} (g : A → nat) (l : list (A * nat)) :
  Forall (λ p, p.2 = g p.1) l → sum_list l.*2 = sum_list_with g l.*1.
Proof.
  induction 1 as [|[a n] l Hp _ IH]; [done|].
  rewrite !fmap_cons. simpl in *. by rewrite <-IH, Hp.
Qed.

(** X17. The two statistics agree: with unique identities, the count that
    [get_yearly_conference_stats year] gives a conference name is the sum of
    the counts that [get_conference_stats] gives for that name and that
    (nonzero) year. *)
Theorem yearly_count_sums_conference_stats (s : session)
    (conference : string) (year : Z)
    (stats : list (ConferenceInstance.t * nat))
    (yearly : list (string * nat)) (count : nat) :
  NoDup (Conference.conference_id <$> conferences (store s)) →
  NoDup (instance_ids (store s)) →
  year ≠ 0 →
  (ConferenceInstanceRepository.get_conference_stats
     conference (YInt year) s).1 = Return stats →
  (ConferenceInstanceRepository.get_yearly_conference_stats year s).1
    = Return yearly →
  (conference, count) ∈ yearly →
  count = sum_list stats.*2.
Proof.
  intros Hcs Hids Hyear Hstats Hyearly Hin.
  assert (next_fault s = None) as Hok.
  { unfold ConferenceInstanceRepository.get_yearly_conference_stats, all
      in Hyearly. by destruct (next_fault s). }
  rewrite get_conference_stats_ok in Hstats by done.
  injection Hstats as <-.
  apply all_returns in Hyearly as ->.
  apply elem_of_group_count in Hin as [_ ->].
  rewrite yearly_group_size by done.
  destruct (conference_stats_rows (store s) conference (YInt year) Hcs Hids)
    as [Hperm Hcounts].
  rewrite (sum_list_counts (λ i, length (papers_of (store s) i)) _ Hcounts).
  rewrite Hperm. f_equal.
  apply list_filter_iff. intros i. unfold passes_year. simpl.
  destruct (Z.eqb_spec year 0) as [|_]; [done|]. simpl.
  rewrite Z.eqb_eq. tauto.
Qed.

Lemma yearly_count_sums_conference_stats_witness :
  5%nat = sum_list [(Scenario.aaai_2022, 5%nat)].*2.
Proof.
  apply (yearly_count_sums_conference_stats Scenario.healthy "AAAI" 2022
           [(Scenario.aaai_2022, 5%nat)] [("AAAI", 5%nat)]).
  - apply (bool_decide_unpack _). vm_compute. reflexivity.
  - apply (bool_decide_unpack _). vm_compute. reflexivity.
  - discriminate.
  - reflexivity.
  - reflexivity.
  - apply (bool_decide_unpack _). vm_compute. reflexivity.
Defined.

(** X18. An empty answer of [get_conference_stats] does not tell a failure
    from no data: it returns the empty list exactly when the engine refused
    the statement or no instance of a conference of that name passes the
    year filter. *)
Theorem get_conference_stats_empty (s : session) (conference : string)
    (year : year_arg) :
  (ConferenceInstanceRepository.get_conference_stats conference year s).1
    = Return []
  ↔ is_Some (next_fault s)
    ∨ (∀ i, i ∈ instances (store s) → instance_of (store s) conference i →
            passes_year year i = false).
Proof.
  destruct (next_fault s) as [e|] eqn:Hfault.
  - split; [intros _; left; by eexists|]. intros _.
    unfold ConferenceInstanceRepository.get_conference_stats, try_except,
      all. by rewrite Hfault.
  - rewrite get_conference_stats_ok by done. split.
    + intros [= Hempty]. right. intros i Hi Hof.
      destruct (passes_year year i) eqn:Hpass; [|done].
      assert (i ∈ (ConferenceInstanceRepository.conference_stats_query
                     conference year (store s)).*1) as Hin.
      { by apply conference_stats_instances. }
      rewrite Hempty in Hin. by apply elem_of_nil in Hin.
    + intros [[e [=]]|Hnone]. f_equal.
      destruct (ConferenceInstanceRepository.conference_stats_query
                  conference year (store s)) as [|p l] eqn:Hquery; [done|].
      assert (p.1 ∈ (ConferenceInstanceRepository.conference_stats_query
                       conference year (store s)).*1) as Hin.
      { rewrite Hquery. by left. }
      apply conference_stats_instances in Hin as (Hi & Hof & Hpass).
      by rewrite Hnone in Hpass.
Qed.
